(** Verification of the operational scripts of cvideo-click-pave:
    the drift detector ([scripts/drift_detection.py]), the cleanup
    discovery and workflow ([scripts/cleanup.py]), the bootstrap creation
    workflow ([scripts/create_bootstrap.py]) and the retry helper of the
    bootstrap validator ([scripts/validate_bootstrap.py]). *)

From Stdlib Require Import String Ascii List QArith Lia.
From stdpp Require Import base gmap sets list strings pretty.

Open Scope string_scope.

(* ================================================================= *)
(** * Python string primitives *)
(* ================================================================= *)

Module Py.

(** [needle in hay] for Python strings: substring test. *)
Fixpoint str_in (needle hay : string) : bool :=
  String.prefix needle hay ||
  match hay with
  | EmptyString => false
  | String _ rest => str_in needle rest
  end.

(** [str.lower()] on ASCII text. *)
Definition lower_char (c : ascii) : ascii :=
  let n := nat_of_ascii c in
  if Nat.leb 65 n && Nat.leb n 90 then ascii_of_nat (n + 32)%nat else c.

Fixpoint lower (s : string) : string :=
  match s with
  | EmptyString => EmptyString
  | String c rest => String (lower_char c) (lower rest)
  end.

(** [sep.join(items)]. *)
Fixpoint join (sep : string) (items : list string) : string :=
  match items with
  | [] => ""
  | [x] => x
  | x :: rest => x ++ sep ++ join sep rest
  end.

End Py.

(* ================================================================= *)
(** * Decoded JSON documents and Python exceptions *)
(* ================================================================= *)

Module Json.

(** A value as [json.loads] gives it, and as boto3 gives the decoded IAM
    policy documents: an object is the list of its entries, each key once,
    in document order; [JScalar ty] is a number, [true]/[false] or [null],
    known by its Python type name ("int", "float", "bool", "NoneType"). *)
#[warnings="-register-all"]
Inductive json :=
  | JStr (s : string)
  | JList (l : list json)
  | JObj (kvs : list (string * json))
  | JScalar (ty : string).

(** [type(v).__name__] *)
Definition type_name (v : json) : string :=
  match v with
  | JStr _ => "str"
  | JList _ => "list"
  | JObj _ => "dict"
  | JScalar ty => ty
  end.

(** [d[k]] when [k in d], on a decoded object. *)
Definition lookup (k : string) (kvs : list (string * json)) : option json :=
  option_map snd (find (λ kv, String.eqb kv.1 k) kvs).

(** How the evaluation of a Python expression ends: a value, or an
    exception, known by [str(e)]. *)
Inductive result (A : Type) :=
  | Returns (a : A)
  | Raises (msg : string).
Arguments Returns {A} a.
Arguments Raises {A} msg.

Definition bind {A B} (r : result A) (f : A -> result B) : result B :=
  match r with
  | Returns a => f a
  | Raises e => Raises e
  end.

(** [x.get(k, default)]: only a [dict] has [get]; on any other value the
    attribute lookup raises [AttributeError]. *)
Definition get (x : json) (k : string) (default : json) : result json :=
  match x with
  | JObj kvs => Returns (match lookup k kvs with Some v => v | None => default end)
  | _ => Raises ("'" ++ type_name x ++ "' object has no attribute 'get'")
  end.

(** [for x in v]: a list gives its elements, a dict its keys, a string its
    characters; a number, a boolean or [None] raises [TypeError]. *)
Definition iter (v : json) : result (list json) :=
  match v with
  | JList l => Returns l
  | JObj kvs => Returns (map (λ kv, JStr kv.1) kvs)
  | JStr s => Returns (map (λ c, JStr (String c EmptyString)) (list_ascii_of_string s))
  | JScalar ty => Raises ("'" ++ ty ++ "' object is not iterable")
  end.

End Json.

(* ================================================================= *)
(** * Drift detection ([scripts/drift_detection.py]) *)
(* ================================================================= *)

Module Drift.

(** An entry of [attached_policies]: [{"name": ..., "arn": ...}]. *)
Record policy_entry := { p_name : string; p_arn : string }.

(** A Python [set] of strings is a [gset string]. Iteration order of a
    Python set is unspecified; the model enumerates it with [elements]. *)

(** [DriftDetector.compare_policies] *)
Definition compare_policies (aws_policies : list policy_entry)
    (expected_policies : list string) (resource_name : string)
    : bool * list string :=
  let aws_policy_names : gset string := list_to_set (map p_name aws_policies) in
  let expected_policy_set : gset string := list_to_set expected_policies in
  let missing := expected_policy_set ∖ aws_policy_names in
  let extra := aws_policy_names ∖ expected_policy_set in
  let issues : list string :=
    app (if decide (missing = ∅) then []
     else ["Missing policies in " ++ resource_name ++ ": "
             ++ Py.join ", " (elements missing)])
    (if decide (extra = ∅) then []
     else ["Extra policies in " ++ resource_name ++ ": "
             ++ Py.join ", " (elements extra)]) in
  (bool_decide (length issues = 0), issues).

(** [DriftDetector.compare_inline_policies] *)
Definition compare_inline_policies (aws_inline expected_inline : list string)
    (resource_name : string) : bool * list string :=
  let aws_set : gset string := list_to_set aws_inline in
  let expected_set : gset string := list_to_set expected_inline in
  let missing := expected_set ∖ aws_set in
  let extra := aws_set ∖ expected_set in
  let issues : list string :=
    app (if decide (missing = ∅) then []
     else ["Missing inline policies in " ++ resource_name ++ ": "
             ++ Py.join ", " (elements missing)])
    (if decide (extra = ∅) then []
     else ["Extra inline policies in " ++ resource_name ++ ": "
             ++ Py.join ", " (elements extra)]) in
  (bool_decide (length issues = 0), issues).

End Drift.


(* ----------------------------------------------------------------- *)
(** ** Resource checks of [DriftDetector] *)
(* ----------------------------------------------------------------- *)

Module DriftCheck.
Import Drift.

(** The dictionary returned by [get_user_info] when ["exists"] is true;
    [get_user_info] returning [{"exists": False}] (on [NoSuchEntity] or on
    any other [ClientError]) is [None]. *)
Record user_info := {
  u_attached_policies : list policy_entry;
  u_inline_policies : list string;
  u_groups : list string }.

(** The value of [Principal.AWS] or [Principal.Federated] in a trust
    policy: one string or a JSON array of strings. *)
Inductive principal_value :=
  | PVStr (s : string)
  | PVList (l : list string).

(** [statement.get("Principal", {})]: a JSON object, of which the keys
    ["AWS"] and ["Federated"] are read, or a non-object such as ["*"]. *)
Inductive principal :=
  | PDict (aws : option principal_value) (federated : option principal_value)
  | PNonDict (s : string).

Record statement := { st_principal : option principal }.

(** The trust policy document: its ["Statement"] array, if present. *)
Record trust_policy := { tp_statement : option (list statement) }.

(** The dictionary returned by [get_role_info] when ["exists"] is true. *)
Record role_info := {
  r_attached_policies : list policy_entry;
  r_inline_policies : list string;
  r_assume_role_policy : trust_policy }.

Definition statement_principal (st : statement) : principal :=
  match st_principal st with Some p => p | None => PDict None None end.

Definition statements (tp : trust_policy) : list statement :=
  match tp_statement tp with Some l => l | None => [] end.

(** [if isinstance(aws_principals, str): aws_principals = [aws_principals]] *)
Definition principal_list (v : principal_value) : list string :=
  match v with PVStr s => [s] | PVList l => l end.

Definition admin_user_arn := "arn:aws:iam::256140316797:user/admin-user".

Definition expected_federated :=
  "arn:aws:iam::256140316797:oidc-provider/token.actions.githubusercontent.com".

(** The [for statement in ...: ... break] loop of [check_developer_role]. *)
Fixpoint can_assume_aws (arn : string) (stmts : list statement) : bool :=
  match stmts with
  | [] => false
  | st :: rest =>
      match statement_principal st with
      | PDict (Some v) _ =>
          if existsb (String.eqb arn) (principal_list v) then true
          else can_assume_aws arn rest
      | _ => can_assume_aws arn rest
      end
  end.

(** The loop of [check_cicd_role]: [principal["Federated"] == expected_federated]. *)
Fixpoint can_assume_federated (fed : string) (stmts : list statement) : bool :=
  match stmts with
  | [] => false
  | st :: rest =>
      match statement_principal st with
      | PDict _ (Some (PVStr s)) =>
          if String.eqb s fed then true else can_assume_federated fed rest
      | _ => can_assume_federated fed rest
      end
  end.

(** [if not match: issues.extend(policy_issues)] *)
Definition issues_of (r : bool * list string) : list string :=
  if r.1 then [] else r.2.

(** [check_developer_user] and [check_admin_user] share this body; they
    differ in the user name and the expected policies. *)
Definition check_user (name : string) (expected_attached expected_inline : list string)
    (info : option user_info) : bool * list string :=
  match info with
  | None => (false, [name ++ " does not exist in AWS"])
  | Some ui =>
      let policy_issues :=
        issues_of (compare_policies (u_attached_policies ui) expected_attached
                     (name ++ " attached policies")) in
      let inline_issues :=
        issues_of (compare_inline_policies (u_inline_policies ui) expected_inline
                     (name ++ " inline policies")) in
      let group_issues :=
        match u_groups ui with
        | [] => []
        | gs => [name ++ " has unexpected groups: " ++ Py.join ", " gs]
        end in
      let issues := app policy_issues (app inline_issues group_issues) in
      (bool_decide (length issues = 0), issues)
  end.

Definition check_developer_user : option user_info -> bool * list string :=
  check_user "developer-user" ["DeveloperExtendedPolicy"; "AmazonEC2ReadOnlyAccess"]
    ["DeveloperComprehensivePolicy"].

Definition check_admin_user : option user_info -> bool * list string :=
  check_user "admin-user" ["PaveAdminPolicy"] [].

Definition developer_role_expected_attached : list string :=
  [ "AmazonAPIGatewayAdministrator"; "AmazonEC2FullAccess";
    "CloudWatchLogsFullAccess"; "AmazonSQSFullAccess";
    "AmazonDynamoDBFullAccess"; "AmazonS3FullAccess";
    "AWSCloudFormationFullAccess"; "AWSLambda_FullAccess" ].

Definition check_developer_role (info : option role_info) : bool * list string :=
  match info with
  | None => (false, ["DeveloperRole does not exist in AWS"])
  | Some ri =>
      let policy_issues :=
        issues_of (compare_policies (r_attached_policies ri)
                     developer_role_expected_attached
                     "DeveloperRole attached policies") in
      let inline_issues :=
        issues_of (compare_inline_policies (r_inline_policies ri) []
                     "DeveloperRole inline policies") in
      let trust_issues :=
        if can_assume_aws admin_user_arn (statements (r_assume_role_policy ri))
        then [] else ["DeveloperRole cannot be assumed by admin-user"] in
      let issues := app policy_issues (app inline_issues trust_issues) in
      (bool_decide (length issues = 0), issues)
  end.

Definition check_cicd_role (info : option role_info) : bool * list string :=
  match info with
  | None => (false, ["CICDDeploymentRole does not exist in AWS"])
  | Some ri =>
      let policy_issues :=
        issues_of (compare_policies (r_attached_policies ri)
                     ["CICDS3SpecificAccess"; "AmazonS3FullAccess"; "AWSLambda_FullAccess"]
                     "CICDDeploymentRole attached policies") in
      let inline_issues :=
        issues_of (compare_inline_policies (r_inline_policies ri) []
                     "CICDDeploymentRole inline policies") in
      let trust_issues :=
        if can_assume_federated expected_federated (statements (r_assume_role_policy ri))
        then [] else ["CICDDeploymentRole cannot be assumed by GitHub Actions OIDC"] in
      let issues := app policy_issues (app inline_issues trust_issues) in
      (bool_decide (length issues = 0), issues)
  end.

(** What the four [get_*_info] calls observe in the account. *)
Record account := {
  acc_developer_user : option user_info;
  acc_admin_user : option user_info;
  acc_developer_role : option role_info;
  acc_cicd_role : option role_info }.

Definition checks (acc : account) : list (string * (bool * list string)) :=
  [ ("developer-user", check_developer_user (acc_developer_user acc));
    ("admin-user", check_admin_user (acc_admin_user acc));
    ("DeveloperRole", check_developer_role (acc_developer_role acc));
    ("CICDDeploymentRole", check_cicd_role (acc_cicd_role acc)) ].

(** [run_full_drift_detection]: [(all_checks_passed, all_issues)]. *)
Fixpoint run_checks (cs : list (string * (bool * list string))) : bool * list string :=
  match cs with
  | [] => (true, [])
  | (_, (passed, issues)) :: rest =>
      let '(ok, acc) := run_checks rest in
      if passed then (ok, acc) else (false, (issues ++ acc)%list)
  end.

Definition run_full_drift_detection (acc : account) : bool :=
  (run_checks (checks acc)).1.

(** [main]: the process exit status. *)
Definition main (acc : account) : nat :=
  if run_full_drift_detection acc then 0 else 1.

End DriftCheck.

(* ================================================================= *)
(** * Cleanup ([scripts/cleanup.py]) *)
(* ================================================================= *)

Module Cleanup.

(** A [list_*] call either returns its list or raises [ClientError]
    ([None]), in which case the [find_pave_*] function returns [[]]. *)

(** [find_pave_users]: the loop over [response["Users"]]. *)
Fixpoint find_pave_users_loop (users : list string) : list string :=
  match users with
  | [] => []
  | username :: rest =>
      if String.eqb username "pave-bootstrap-user" then find_pave_users_loop rest
      else if String.eqb username "admin-user"
              || String.eqb username "developer-user"
              || Py.str_in "admin-user-" username
              || Py.str_in "developer-user-" username
      then username :: find_pave_users_loop rest
      else find_pave_users_loop rest
  end.

Definition find_pave_users (response : option (list string)) : list string :=
  match response with Some users => find_pave_users_loop users | None => [] end.

(** [find_pave_roles] *)
Fixpoint find_pave_roles_loop (roles : list string) : list string :=
  match roles with
  | [] => []
  | role_name :: rest =>
      if String.eqb role_name "PaveBootstrapRole" then find_pave_roles_loop rest
      else if String.eqb role_name "CICDDeploymentRole"
              || String.eqb role_name "DeveloperRole"
              || Py.str_in "CICDDeploymentRole-" role_name
              || Py.str_in "DeveloperRole-" role_name
      then role_name :: find_pave_roles_loop rest
      else find_pave_roles_loop rest
  end.

Definition find_pave_roles (response : option (list string)) : list string :=
  match response with Some roles => find_pave_roles_loop roles | None => [] end.

(** An entry of [response["Policies"]] and of the returned list:
    [{"name": PolicyName, "arn": Arn}]. *)
Record policy := { pol_name : string; pol_arn : string }.

(** [find_pave_policies] *)
Fixpoint find_pave_policies_loop (policies : list policy) : list policy :=
  match policies with
  | [] => []
  | p :: rest =>
      let policy_name := pol_name p in
      if String.eqb policy_name "PaveBootstrapPolicy" then find_pave_policies_loop rest
      else if String.eqb policy_name "CICDS3SpecificAccess"
              || String.eqb policy_name "PaveAdminPolicy"
              || Py.str_in "CICDS3SpecificAccess-" policy_name
      then p :: find_pave_policies_loop rest
      else find_pave_policies_loop rest
  end.

Definition find_pave_policies (response : option (list policy)) : list policy :=
  match response with Some ps => find_pave_policies_loop ps | None => [] end.

(** An entry of [response["Buckets"]]; [bucket.get("Name", "")]. *)
Record bucket := { b_name : option string }.

Definition bucket_name_of (b : bucket) : string :=
  match b_name b with Some n => n | None => "" end.

(** [find_pave_buckets] *)
Fixpoint find_pave_buckets_loop (buckets : list bucket) : list string :=
  match buckets with
  | [] => []
  | b :: rest =>
      let bucket_name := bucket_name_of b in
      if String.eqb bucket_name "" then find_pave_buckets_loop rest
      else if String.eqb bucket_name "pave-tf-state-bucket-us-east-1"
              || Py.str_in "pave-tf-state-bucket-" bucket_name
      then bucket_name :: find_pave_buckets_loop rest
      else find_pave_buckets_loop rest
  end.

Definition find_pave_buckets (response : option (list bucket)) : list string :=
  match response with Some bs => find_pave_buckets_loop bs | None => [] end.

(** The AWS mutations the cleanup performs, one per helper:
    [cleanup_user_access_keys], [cleanup_user_policies], [delete_user],
    [cleanup_role_policies], [delete_role], [delete_policy],
    [empty_s3_bucket], [delete_bucket], and [cleanup_local_files]. *)
Inductive action :=
  | DeleteAccessKeys (user : string)
  | CleanupUserPolicies (user : string)
  | DeleteUser (user : string)
  | CleanupRolePolicies (role : string)
  | DeleteRole (role : string)
  | DeletePolicy (name arn : string)
  | EmptyBucket (bucket : string)
  | DeleteBucket (bucket : string)
  | CleanupLocalFiles.

(** Every helper catches [ClientError] (or [Exception] for local files),
    prints a warning and carries on; [fails a] says whether the AWS call
    behind [a] raises. The trace records each attempt and its success. *)
Section Workflow.
Variable fails : action -> bool.

Definition attempt (a : action) : action * bool := (a, negb (fails a)).

Definition cleanup_users (users : list string) : list (action * bool) :=
  flat_map (fun u => [attempt (DeleteAccessKeys u); attempt (CleanupUserPolicies u);
                      attempt (DeleteUser u)]) users.

Definition cleanup_roles (roles : list string) : list (action * bool) :=
  flat_map (fun r => [attempt (CleanupRolePolicies r); attempt (DeleteRole r)]) roles.

Definition cleanup_policies (policies : list policy) : list (action * bool) :=
  map (fun p => attempt (DeletePolicy (pol_name p) (pol_arn p))) policies.

Definition cleanup_buckets (buckets : list string) : list (action * bool) :=
  flat_map (fun b => [attempt (EmptyBucket b); attempt (DeleteBucket b)]) buckets.

(** What the [list_*] calls of one run observe. *)
Record listing := {
  l_users : option (list string);
  l_roles : option (list string);
  l_policies : option (list policy);
  l_buckets : option (list bucket) }.

(** Command line and terminal input of one run. *)
Record invocation := {
  skip_confirm : bool;
  dev_only : bool;
  confirmation : string;  (* the answer typed at the prompt *)
  clients_ok : bool }.    (* [get_boto3_client] succeeds for iam and s3 *)

Record outcome := { exit_code : nat; trace : list (action * bool) }.

(** [main]; returning normally is exit status 0. *)
Definition main (inv : invocation) (lst : listing) : outcome :=
  if negb (skip_confirm inv) && negb (String.eqb (Py.lower (confirmation inv)) "y")
  then {| exit_code := 0; trace := [] |}
  else if negb (clients_ok inv) then {| exit_code := 1; trace := [] |}
  else
    let users := find_pave_users (l_users lst) in
    let roles := find_pave_roles (l_roles lst) in
    let policies := find_pave_policies (l_policies lst) in
    let buckets := find_pave_buckets (l_buckets lst) in
    if (bool_decide (users = []) && bool_decide (roles = []) &&
        bool_decide (policies = []) && bool_decide (buckets = []))%bool
    then {| exit_code := 0; trace := [] |}
    else {| exit_code := 0;
            trace := cleanup_users users ++ cleanup_roles roles ++
                     cleanup_policies policies ++ cleanup_buckets buckets ++
                     [attempt CleanupLocalFiles] |}.

End Workflow.

(** Whether the confirmation step lets the run go on. *)
Definition proceeds (inv : invocation) : bool :=
  skip_confirm inv || String.eqb (Py.lower (confirmation inv)) "y".


End Cleanup.

(** [cleanup.py] with the exceptions its [except ClientError] clauses do
    not catch. *)
Module CleanupExc.
Import Cleanup.

(** How the AWS calls behind one step end: all succeed, one raises
    [ClientError] (caught, a warning is printed), or one raises another
    exception such as [NoCredentialsError] or [EndpointConnectionError],
    which no [except ClientError] clause catches. *)
Inductive call_end := Done | ClientErr | Uncaught (exc : string).

(** What a [list_*] call of a [find_pave_*] function gives. *)
Inductive read (A : Type) :=
  | Read (v : A)
  | ReadClientError
  | ReadUncaught (exc : string).
Arguments Read {A} v.
Arguments ReadClientError {A}.
Arguments ReadUncaught {A} exc.

(** A [find_pave_*] function: its [except ClientError] returns [[]];
    [None] when another exception leaves it. *)
Definition find {A B} (f : option A -> B) (r : read A) : option B :=
  match r with
  | Read v => Some (f (Some v))
  | ReadClientError => Some (f None)
  | ReadUncaught _ => None
  end.

Record listing := {
  l_users : read (list string);
  l_roles : read (list string);
  l_policies : read (list policy);
  l_buckets : read (list bucket) }.

(** Command line and terminal input of one run; [answer] is [None] when
    [input()] reaches the end of its input and raises [EOFError]. *)
Record invocation := {
  skip_confirm : bool;
  answer : option string;
  clients_ok : bool }.

(** [cleanup_local_files] wraps each removal in [except Exception]. *)
Definition catches_all (a : action) : bool :=
  match a with CleanupLocalFiles => true | _ => false end.

(** The steps after discovery, in the order of [main]. *)
Definition plan (users roles : list string) (policies : list policy)
    (buckets : list string) : list action :=
  flat_map (λ u, [DeleteAccessKeys u; CleanupUserPolicies u; DeleteUser u]) users ++
  flat_map (λ r, [CleanupRolePolicies r; DeleteRole r]) roles ++
  map (λ p, DeletePolicy (pol_name p) (pol_arn p)) policies ++
  flat_map (λ b, [EmptyBucket b; DeleteBucket b]) buckets ++
  [CleanupLocalFiles].

Section Run.
Variable ends : action -> call_end.

(** The trace of the steps and whether the run got past all of them:
    an exception that the step does not catch ends the run there. *)
Fixpoint run_actions (acts : list action) : list (action * bool) * bool :=
  match acts with
  | [] => ([], true)
  | a :: rest =>
      match ends a with
      | Done => let '(t, completed) := run_actions rest in ((a, true) :: t, completed)
      | ClientErr => let '(t, completed) := run_actions rest in ((a, false) :: t, completed)
      | Uncaught _ =>
          if catches_all a then
            let '(t, completed) := run_actions rest in ((a, false) :: t, completed)
          else ([(a, false)], false)
      end
  end.

(** [main] from [get_boto3_client] on, given whether both clients are
    created; [get_boto3_client] turns any exception into [sys.exit(1)]. *)
Definition after_confirmation (clients_ok : bool) (lst : listing) : outcome :=
  if negb clients_ok then {| exit_code := 1; trace := [] |}
  else
    match find find_pave_users (l_users lst) with
    | None => {| exit_code := 1; trace := [] |}
    | Some users =>
    match find find_pave_roles (l_roles lst) with
    | None => {| exit_code := 1; trace := [] |}
    | Some roles =>
    match find find_pave_policies (l_policies lst) with
    | None => {| exit_code := 1; trace := [] |}
    | Some policies =>
    match find find_pave_buckets (l_buckets lst) with
    | None => {| exit_code := 1; trace := [] |}
    | Some buckets =>
        if (bool_decide (users = []) && bool_decide (roles = []) &&
            bool_decide (policies = []) && bool_decide (buckets = []))%bool
        then {| exit_code := 0; trace := [] |}
        else
          let '(t, completed) := run_actions (plan users roles policies buckets) in
          {| exit_code := if completed then 0 else 1; trace := t |}
    end end end end.

(** [main]; an exception that leaves it ends the process with status 1,
    as [sys.exit(1)] does. *)
Definition main (inv : invocation) (lst : listing) : outcome :=
  if skip_confirm inv then after_confirmation (clients_ok inv) lst
  else
    match answer inv with
    | None => {| exit_code := 1; trace := [] |}
    | Some confirmation =>
        if negb (String.eqb (Py.lower confirmation) "y")
        then {| exit_code := 0; trace := [] |}
        else after_confirmation (clients_ok inv) lst
    end.

End Run.

End CleanupExc.

(* ================================================================= *)
(** * Retry helper ([scripts/validate_bootstrap.py]) *)
(* ================================================================= *)

Module Retry.

(** One call of the wrapped operation [func()]: it returns a value or
    raises an exception, known by its [str(e)]. The operation is stateful
    (each call may behave differently): [func attempt] is the outcome of
    the call made at iteration [attempt] of the loop. *)
Inductive call_result (A : Type) :=
  | Ret (v : A)
  | Exc (msg : string).
Arguments Ret {A} v.
Arguments Exc {A} msg.

(** How [retry_with_backoff] ends: it returns a value or raises. *)
Inductive final (A : Type) :=
  | Returned (v : A)
  | Raised (msg : string).
Arguments Returned {A} v.
Arguments Raised {A} msg.

Definition keywords : list string :=
  ["invalidclienttokenid"; "invalid"; "token"; "accessdenied"; "unauthorized";
   "credentials"].

(** [any(keyword in str(e).lower() for keyword in [...])] *)
Definition is_retryable (msg : string) : bool :=
  existsb (λ keyword, Py.str_in keyword (Py.lower msg)) keywords.

(** [initial_delay * (2**attempt)]; the float product is exact for these
    powers of two and is modelled in [Q]. *)
Definition delay (initial_delay : Q) (attempt : nat) : Q :=
  initial_delay * inject_Z (2 ^ Z.of_nat attempt).

Section Loop.
Context {A : Type} (func : nat -> call_result A) (max_attempts : nat)
        (initial_delay : Q).

(** [for attempt in range(max_attempts)], from iteration [attempt] with
    [fuel] iterations left. Result: the [time.sleep] delays in order and
    how the helper ends. *)
Fixpoint retry_loop (attempt fuel : nat) : list Q * final A :=
  match fuel with
  | O => ([], Raised ("Failed after " ++ pretty max_attempts ++ " attempts"))
  | S fuel' =>
      match func attempt with
      | Ret v => ([], Returned v)
      | Exc e =>
          if Nat.eqb attempt (max_attempts - 1) then ([], Raised e)
          else if is_retryable e then
            let '(sleeps, r) := retry_loop (S attempt) fuel' in
            (delay initial_delay attempt :: sleeps, r)
          else ([], Raised e)
      end
  end.

End Loop.

Definition retry_with_backoff {A} (func : nat -> call_result A)
    (max_attempts : nat) (initial_delay : Q) : list Q * final A :=
  retry_loop func max_attempts initial_delay 0 max_attempts.

(** The defaults [max_attempts=6, initial_delay=1.0], used at every call
    site of the script. *)
Definition retry_with_backoff_default {A} (func : nat -> call_result A)
    : list Q * final A :=
  retry_with_backoff func 6 1.

End Retry.

(* ================================================================= *)
(** * Bootstrap creation ([scripts/create_bootstrap.py]) *)
(* ================================================================= *)

Module Bootstrap.

(** The part of the AWS account and of the local checkout the workflow
    touches. Access keys are known by their id; the Secrets Manager entry
    [pave/bootstrap-credentials], the [.secrets] file and its backup hold
    the id of the key they store. *)

(** The Secrets Manager entry: the key it holds and whether the resource
    policy of [store_credentials_in_secrets_manager] is on it (allow the
    account root, deny every other principal). *)
Record secret_entry := { stored_key : nat; root_only : bool }.

Record state := {
  users : list (string * string);         (* user name, ARN *)
  policies : list (string * string);      (* policy name, ARN *)
  attachments : list (string * string);   (* user name, policy ARN *)
  access_keys : list (string * nat);      (* user name, access key id *)
  buckets : list string;
  secret : option secret_entry;
  secrets_file : option nat;
  secrets_backup : option nat;
  next_key_id : nat }.                     (* id AWS gives the next key *)

Definition with_users st u :=
  {| users := u; policies := policies st; attachments := attachments st;
     access_keys := access_keys st; buckets := buckets st; secret := secret st;
     secrets_file := secrets_file st; secrets_backup := secrets_backup st;
     next_key_id := next_key_id st |}.
Definition with_policies st p :=
  {| users := users st; policies := p; attachments := attachments st;
     access_keys := access_keys st; buckets := buckets st; secret := secret st;
     secrets_file := secrets_file st; secrets_backup := secrets_backup st;
     next_key_id := next_key_id st |}.
Definition with_attachments st a :=
  {| users := users st; policies := policies st; attachments := a;
     access_keys := access_keys st; buckets := buckets st; secret := secret st;
     secrets_file := secrets_file st; secrets_backup := secrets_backup st;
     next_key_id := next_key_id st |}.
Definition with_keys st k n :=
  {| users := users st; policies := policies st; attachments := attachments st;
     access_keys := k; buckets := buckets st; secret := secret st;
     secrets_file := secrets_file st; secrets_backup := secrets_backup st;
     next_key_id := n |}.
Definition with_buckets st b :=
  {| users := users st; policies := policies st; attachments := attachments st;
     access_keys := access_keys st; buckets := b; secret := secret st;
     secrets_file := secrets_file st; secrets_backup := secrets_backup st;
     next_key_id := next_key_id st |}.
Definition with_secret st x :=
  {| users := users st; policies := policies st; attachments := attachments st;
     access_keys := access_keys st; buckets := buckets st; secret := x;
     secrets_file := secrets_file st; secrets_backup := secrets_backup st;
     next_key_id := next_key_id st |}.
Definition with_files st f b :=
  {| users := users st; policies := policies st; attachments := attachments st;
     access_keys := access_keys st; buckets := buckets st; secret := secret st;
     secrets_file := f; secrets_backup := b; next_key_id := next_key_id st |}.

Definition lookup (name : string) (l : list (string * string)) : option string :=
  option_map snd (find (λ p, String.eqb p.1 name) l).

Definition user_name := "bootstrap-user".
Definition policy_name := "PaveBootstrapPolicy".
Definition bucket_name := "pave-tf-state-bucket-us-east-1".

Section Workflow.
(** The account the credentials belong to
    ([sts.get_caller_identity()["Account"]]). *)
Variable account_id : string.
(** The credentials are the account's root user. *)
Variable root_caller : bool.
(** Another AWS account owns a bucket named [pave-tf-state-bucket-us-east-1]
    (bucket names are global): [head_bucket] answers 403. *)
Variable bucket_owned_elsewhere : bool.

Definition user_arn (name : string) := "arn:aws:iam::" ++ account_id ++ ":user/" ++ name.
Definition policy_arn (name : string) :=
  "arn:aws:iam::" ++ account_id ++ ":policy/" ++ name.

(** The IAM, S3 and Secrets Manager calls, as the services document them
    for an account that refuses nothing but the cases below. *)
Definition keys_of (u : string) (st : state) : list nat :=
  map snd (List.filter (λ k, String.eqb k.1 u) (access_keys st)).

(** [create_access_key]: [LimitExceeded] at two keys. *)
Definition aws_create_access_key (u : string) (st : state) : option (nat * state) :=
  if Nat.leb 2 (length (keys_of u st)) then None
  else Some (next_key_id st,
             with_keys st (access_keys st ++ [(u, next_key_id st)]) (S (next_key_id st))).

(** [cleanup_existing_access_keys]: [list_access_keys] raises [NoSuchEntity]
    for a missing user; otherwise every key of the user is deleted. *)
Definition cleanup_existing_access_keys (u : string) (st : state) : state :=
  match lookup u (users st) with
  | None => st
  | Some _ =>
      with_keys st (List.filter (λ k, negb (String.eqb k.1 u)) (access_keys st))
        (next_key_id st)
  end.

(** [create_bootstrap_user]: on [EntityAlreadyExists], [get_user] gives the
    existing ARN. *)
Definition create_bootstrap_user (st : state) : option string * state :=
  match lookup user_name (users st) with
  | Some arn => (Some arn, st)
  | None =>
      (Some (user_arn user_name),
       with_users st (users st ++ [(user_name, user_arn user_name)]))
  end.

(** [create_bootstrap_policy]: on [EntityAlreadyExists], the ARN is built
    from the caller's account id and the policy name. *)
Definition create_bootstrap_policy (st : state) : option string * state :=
  match lookup policy_name (policies st) with
  | Some _ => (Some (policy_arn policy_name), st)
  | None =>
      (Some (policy_arn policy_name),
       with_policies st (policies st ++ [(policy_name, policy_arn policy_name)]))
  end.

(** [attach_policy_to_user]: [attach_user_policy] raises [NoSuchEntity]
    when the user or the policy ARN is unknown, which the code reads as
    "Policy already attached" (success); attaching twice is a no-op. *)
Definition attach_policy_to_user (u arn : string) (st : state) : bool * state :=
  match lookup u (users st), find (λ p, String.eqb p.2 arn) (policies st) with
  | Some _, Some _ =>
      if existsb (λ a, String.eqb a.1 u && String.eqb a.2 arn) (attachments st)
      then (true, st)
      else (true, with_attachments st (attachments st ++ [(u, arn)]))
  | _, _ => (true, st)
  end.

(** [create_access_key] of the script. *)
Definition create_access_key (u : string) (st : state) : option nat * state :=
  match aws_create_access_key u st with
  | Some (k, st') => (Some k, st')
  | None => (None, st)
  end.

(** [create_s3_backend_bucket]: [head_bucket] finds it; a 403 for a bucket
    of another account is not 404 and gives [False]; a 404 leads to
    [create_bucket] (then versioning, encryption, public access block). *)
Definition create_s3_backend_bucket (st : state) : bool * state :=
  if existsb (String.eqb bucket_name) (buckets st) then (true, st)
  else if bucket_owned_elsewhere then (false, st)
  else (true, with_buckets st (buckets st ++ [bucket_name])).

(** [store_credentials_in_secrets_manager]: [update_secret], or
    [create_secret] on [ResourceNotFoundException], then
    [put_resource_policy] with the root-only policy. On a secret that has
    that policy, [update_secret] by any principal but the root is refused
    with [AccessDeniedException]: the code re-raises it and its outer
    [except Exception] returns [False]. *)
Definition store_credentials_in_secrets_manager (k : nat) (st : state) : bool * state :=
  let stored := Some {| stored_key := k; root_only := true |} in
  match secret st with
  | Some e =>
      if root_only e && negb root_caller then (false, st)
      else (true, with_secret st stored)
  | None => (true, with_secret st stored)
  end.

(** [update_secrets_file]: an existing [.secrets] is copied to
    [.secrets.backup], then [.secrets] is written. *)
Definition update_secrets_file (k : nat) (st : state) : bool * state :=
  match secrets_file st with
  | Some old => (true, with_files st (Some k) (Some old))
  | None => (true, with_files st (Some k) (secrets_backup st))
  end.

(** [main]: the exit status and the final state. *)
Definition main (st0 : state) : nat * state :=
  let st1 := cleanup_existing_access_keys user_name st0 in
  match create_bootstrap_user st1 with
  | (None, st) => (1, st)
  | (Some _, st2) =>
  match create_bootstrap_policy st2 with
  | (None, st) => (1, st)
  | (Some parn, st3) =>
  match attach_policy_to_user user_name parn st3 with
  | (false, st) => (1, st)
  | (true, st4) =>
  match create_access_key user_name st4 with
  | (None, st) => (1, st)
  | (Some key, st5) =>
  match create_s3_backend_bucket st5 with
  | (false, st) => (1, st)
  | (true, st6) =>
  match store_credentials_in_secrets_manager key st6 with
  | (false, st) => (1, st)
  | (true, st7) =>
  match update_secrets_file key st7 with
  | (false, st) => (1, st)
  | (true, st8) => (0, st8)
  end end end end end end end.

End Workflow.


End Bootstrap.

(* ================================================================= *)
(** * Bootstrap validator entry point ([scripts/validate_bootstrap.py]) *)
(* ================================================================= *)

Module Validate.

(** [main]: [get_boto3_client("iam")] and [get_boto3_client("sts")] call
    [sys.exit(1)] when the client cannot be created after retries; each
    validation ([validate_current_user_is_bootstrap],
    [validate_bootstrap_user], [validate_bootstrap_permissions]) catches its
    errors and returns a boolean. *)
Definition main (iam_client_ok sts_client_ok : bool) (results : list bool) : nat :=
  if negb iam_client_ok then 1
  else if negb sts_client_ok then 1
  else if forallb (λ r, r) results then 0 else 1.

End Validate.

(* ================================================================= *)
(** * AWS calls as the scripts see them *)
(* ================================================================= *)

Module Aws.

(** A boto3 call: its response, or a [ClientError] with its error code
    ([e.response["Error"]["Code"]]). *)
Inductive api (A : Type) :=
  | Ok (v : A)
  | ClientError (code : string).
Arguments Ok {A} v.
Arguments ClientError {A} code.

End Aws.

(* ================================================================= *)
(** * The reads of [DriftDetector] ([get_user_info], [get_role_info]) *)
(* ================================================================= *)

Module DriftInfo.
Import Aws Drift DriftCheck.

(** The three reads [get_user_info] makes for one user name. *)
Record user_calls := {
  list_attached_user_policies : api (list policy_entry);
  list_user_policies : api (list string);
  list_groups_for_user : api (list string) }.

(** [DriftDetector.get_user_info]: [{"exists": False}] on any [ClientError],
    with code [NoSuchEntity] or any other (the latter is printed first). *)
Definition get_user_info (c : user_calls) : option user_info :=
  match list_attached_user_policies c with
  | ClientError _ => None
  | Ok attached =>
  match list_user_policies c with
  | ClientError _ => None
  | Ok inline =>
  match list_groups_for_user c with
  | ClientError _ => None
  | Ok groups =>
      Some {| u_attached_policies := attached; u_inline_policies := inline;
              u_groups := groups |}
  end end end.

(** The three reads [get_role_info] makes for one role name; [get_role]
    gives [response["Role"]["AssumeRolePolicyDocument"]]. *)
Record role_calls := {
  get_role : api trust_policy;
  list_attached_role_policies : api (list policy_entry);
  list_role_policies : api (list string) }.

(** [DriftDetector.get_role_info] *)
Definition get_role_info (c : role_calls) : option role_info :=
  match get_role c with
  | ClientError _ => None
  | Ok doc =>
  match list_attached_role_policies c with
  | ClientError _ => None
  | Ok attached =>
  match list_role_policies c with
  | ClientError _ => None
  | Ok inline =>
      Some {| r_attached_policies := attached; r_inline_policies := inline;
              r_assume_role_policy := doc |}
  end end end.

End DriftInfo.

(* ================================================================= *)
(** * [DriftDetector] on the decoded trust policies, with exceptions *)
(* ================================================================= *)

(** The role checks again, with [assume_role_policy] the document
    [get_role] returns ([response["Role"]["AssumeRolePolicyDocument"]],
    decoded), and with the exceptions that can leave a check: those of the
    trust loop on a document it does not expect, and those of the reads
    other than [ClientError], which [get_user_info] and [get_role_info] do
    not catch. [run_full_drift_detection] catches them all. *)
Module DriftDetector.
Import Drift DriftCheck Json.

(** The dictionary [get_role_info] returns when ["exists"] is true. *)
Record role_doc := {
  rd_attached_policies : list policy_entry;
  rd_inline_policies : list string;
  rd_assume_role_policy : json }.

(** [for statement in assume_policy.get("Statement", [])] *)
Definition statements_of (assume_policy : json) : result (list json) :=
  bind (get assume_policy "Statement" (JList [])) iter.

(** [if isinstance(aws_principals, str): aws_principals = [aws_principals]],
    then [admin_user_arn in aws_principals]: [==] against the elements of a
    list, a key of a dict, [TypeError] on a number, a boolean or [None]. *)
Definition aws_principals_contain (arn : string) (aws_principals : json) : result bool :=
  match aws_principals with
  | JStr s => Returns (String.eqb arn s)
  | JList l =>
      Returns (existsb (λ v, match v with JStr s => String.eqb arn s | _ => false end) l)
  | JObj kvs => Returns (existsb (λ kv, String.eqb arn kv.1) kvs)
  | JScalar ty => Raises ("argument of type '" ++ ty ++ "' is not iterable")
  end.

(** The trust loop of [check_developer_role]:
    [principal = statement.get("Principal", {})], then
    [if isinstance(principal, dict) and "AWS" in principal: ...], with its
    [break]. *)
Fixpoint can_assume_aws (arn : string) (stmts : list json) : result bool :=
  match stmts with
  | [] => Returns false
  | statement :: rest =>
      match get statement "Principal" (JObj []) with
      | Raises e => Raises e
      | Returns (JObj pkvs) =>
          match lookup "AWS" pkvs with
          | Some aws_principals =>
              match aws_principals_contain arn aws_principals with
              | Raises e => Raises e
              | Returns true => Returns true
              | Returns false => can_assume_aws arn rest
              end
          | None => can_assume_aws arn rest
          end
      | Returns _ => can_assume_aws arn rest
      end
  end.

(** The trust loop of [check_cicd_role]:
    [if isinstance(principal, dict) and "Federated" in principal:
       if principal["Federated"] == expected_federated: ...]. *)
Fixpoint can_assume_federated (fed : string) (stmts : list json) : result bool :=
  match stmts with
  | [] => Returns false
  | statement :: rest =>
      match get statement "Principal" (JObj []) with
      | Raises e => Raises e
      | Returns (JObj pkvs) =>
          match lookup "Federated" pkvs with
          | Some (JStr s) =>
              if String.eqb s fed then Returns true else can_assume_federated fed rest
          | _ => can_assume_federated fed rest
          end
      | Returns _ => can_assume_federated fed rest
      end
  end.

(** [DriftDetector.check_developer_role] *)
Definition check_developer_role (info : option role_doc) : result (bool * list string) :=
  match info with
  | None => Returns (false, ["DeveloperRole does not exist in AWS"])
  | Some rd =>
      let policy_issues :=
        issues_of (compare_policies (rd_attached_policies rd)
                     developer_role_expected_attached
                     "DeveloperRole attached policies") in
      let inline_issues :=
        issues_of (compare_inline_policies (rd_inline_policies rd) []
                     "DeveloperRole inline policies") in
      bind (statements_of (rd_assume_role_policy rd)) (λ stmts,
      bind (can_assume_aws admin_user_arn stmts) (λ can_assume,
      let trust_issues :=
        if can_assume then [] else ["DeveloperRole cannot be assumed by admin-user"] in
      let issues := app policy_issues (app inline_issues trust_issues) in
      Returns (bool_decide (length issues = 0), issues)))
  end.

(** [DriftDetector.check_cicd_role] *)
Definition check_cicd_role (info : option role_doc) : result (bool * list string) :=
  match info with
  | None => Returns (false, ["CICDDeploymentRole does not exist in AWS"])
  | Some rd =>
      let policy_issues :=
        issues_of (compare_policies (rd_attached_policies rd)
                     ["CICDS3SpecificAccess"; "AmazonS3FullAccess"; "AWSLambda_FullAccess"]
                     "CICDDeploymentRole attached policies") in
      let inline_issues :=
        issues_of (compare_inline_policies (rd_inline_policies rd) []
                     "CICDDeploymentRole inline policies") in
      bind (statements_of (rd_assume_role_policy rd)) (λ stmts,
      bind (can_assume_federated expected_federated stmts) (λ can_assume,
      let trust_issues :=
        if can_assume then []
        else ["CICDDeploymentRole cannot be assumed by GitHub Actions OIDC"] in
      let issues := app policy_issues (app inline_issues trust_issues) in
      Returns (bool_decide (length issues = 0), issues)))
  end.

(** What the four [get_*_info] reads give; [Raises e] when a read raises
    an exception other than [ClientError] (a [ClientError] gives
    [{"exists": False}], that is [Returns None]). *)
Record account := {
  acc_developer_user : result (option user_info);
  acc_admin_user : result (option user_info);
  acc_developer_role : result (option role_doc);
  acc_cicd_role : result (option role_doc) }.

(** The [checks] list of [run_full_drift_detection], each check evaluated. *)
Definition checks (acc : account) : list (string * result (bool * list string)) :=
  [ ("developer-user", bind (acc_developer_user acc) (λ i, Returns (check_developer_user i)));
    ("admin-user", bind (acc_admin_user acc) (λ i, Returns (check_admin_user i)));
    ("DeveloperRole", bind (acc_developer_role acc) check_developer_role);
    ("CICDDeploymentRole", bind (acc_cicd_role acc) check_cicd_role) ].

(** The loop of [run_full_drift_detection]: [(all_checks_passed, all_issues)];
    [except Exception as e] appends ["Failed to check {resource_name}: {e}"]. *)
Fixpoint run_checks (cs : list (string * result (bool * list string))) : bool * list string :=
  match cs with
  | [] => (true, [])
  | (resource_name, r) :: rest =>
      let '(ok, all_issues) := run_checks rest in
      match r with
      | Returns (passed, issues) =>
          if passed then (ok, all_issues) else (false, (issues ++ all_issues)%list)
      | Raises e => (false, ("Failed to check " ++ resource_name ++ ": " ++ e) :: all_issues)
      end
  end.

Definition run_full_drift_detection (acc : account) : bool :=
  (run_checks (checks acc)).1.

(** [main]; [connected] says whether [DriftDetector()] got its clients and
    [get_caller_identity] answered: otherwise the process exits 1, through
    [sys.exit(1)] for [NoCredentialsError] and [ClientError] and through an
    uncaught exception for the others. *)
Definition main (connected : bool) (acc : account) : nat :=
  if connected then (if run_full_drift_detection acc then 0 else 1) else 1.

End DriftDetector.

(* ================================================================= *)
(** * [empty_s3_bucket] and [cleanup_local_files] ([scripts/cleanup.py]) *)
(* ================================================================= *)

Module CleanupBucket.

(** [{"Key": obj["Key"], "VersionId": obj["VersionId"]}] *)
Record version := { v_key : string; v_version_id : string }.

(** A page of [list_object_versions]: its ["Versions"] and
    ["DeleteMarkers"] entries, each when the key is present. *)
Record page := { versions : option (list version);
                 delete_markers : option (list version) }.

Definition entries (o : option (list version)) : list version :=
  match o with Some l => l | None => [] end.

Section Empty.
(** Whether [delete_objects] on a batch raises [ClientError]. *)
Variable delete_fails : list version -> bool.

(** [if objects: s3_client.delete_objects(...)], followed by the rest of
    the loop. Result: the batches passed to [delete_objects], and whether
    the loop ran to its end ([false]: a [ClientError] was caught and
    printed as a warning). *)
Definition delete_batch (objects : list version)
    (rest : list (list version) * bool) : list (list version) * bool :=
  match objects with
  | [] => rest
  | _ => if delete_fails objects then ([objects], false)
         else (objects :: rest.1, rest.2)
  end.

(** [for page in paginator.paginate(...)]; [None] is a page whose request
    raises [ClientError]. *)
Fixpoint empty_pages (pages : list (option page)) : list (list version) * bool :=
  match pages with
  | [] => ([], true)
  | None :: _ => ([], false)
  | Some pg :: rest =>
      delete_batch (entries (versions pg))
        (delete_batch (entries (delete_markers pg)) (empty_pages rest))
  end.

End Empty.

Definition empty_s3_bucket := empty_pages.

End CleanupBucket.

Module CleanupLocal.

(** The entries of the working directory, by relative path. Symbolic
    links are not modelled. *)
Inductive kind := File | Dir.
Definition fs := list (string * kind).

Definition files_to_clean : list string :=
  ["terraform.tfstate"; "terraform.tfstate.backup"; ".terraform.lock.hcl"].
Definition dirs_to_clean : list string := [".terraform"; "credentials"].

(** The path [d] itself or a path below it. *)
Definition under (d p : string) : bool := String.eqb p d || String.prefix (d ++ "/") p.

(** [Path(file_path).unlink(missing_ok=True)]: nothing happens for a
    missing path; on a directory it raises [IsADirectoryError], which is
    caught and printed. *)
Definition unlink (f : fs) (p : string) : fs :=
  match find (λ e, String.eqb e.1 p) f with
  | Some (_, File) => List.filter (λ e, negb (String.eqb e.1 p)) f
  | _ => f
  end.

(** [if Path(dir_path).exists(): shutil.rmtree(dir_path)]: on a file
    [rmtree] raises [NotADirectoryError], which is caught and printed. *)
Definition rmtree (f : fs) (d : string) : fs :=
  match find (λ e, String.eqb e.1 d) f with
  | Some (_, Dir) => List.filter (λ e, negb (under d e.1)) f
  | _ => f
  end.

(** [cleanup_local_files]: the files first, then the directories. *)
Definition cleanup_local_files (f : fs) : fs :=
  fold_left rmtree dirs_to_clean (fold_left unlink files_to_clean f).

End CleanupLocal.

(* ================================================================= *)
(** * The validations of [scripts/validate_bootstrap.py] *)
(* ================================================================= *)

Module ValidateFlow.
Import Retry.

(** Each validation wraps its AWS call in [retry_with_backoff] with the
    defaults; the call made at iteration [attempt] of that retry loop has
    the outcome [f attempt]. *)

(** [iam_client.get_user(UserName="bootstrap-user")]: the user, the
    [NoSuchEntityException], or another exception known by [str(e)]. *)
Inductive get_user_outcome :=
  | UserFound (arn : string)
  | NoSuchEntityException
  | GetUserError (msg : string).

(** The exception text [check_user] accepts as a found user. *)
Definition self_permission_denied (msg : string) : bool :=
  Py.str_in "AccessDenied" msg && Py.str_in "iam:GetUser" msg.

(** [check_user] of [validate_bootstrap_user], one call. *)
Definition check_user (o : get_user_outcome) : call_result bool :=
  match o with
  | UserFound _ => Ret true
  | NoSuchEntityException => Ret false
  | GetUserError msg => if self_permission_denied msg then Ret true else Exc msg
  end.

(** [validate_bootstrap_user]: an exception out of the retry helper is
    caught and gives [False]. *)
Definition validate_bootstrap_user (get_user : nat -> get_user_outcome) : bool :=
  match (retry_with_backoff_default (λ a, check_user (get_user a))).2 with
  | Returned b => b
  | Raised _ => false
  end.

(** [sts_client.get_caller_identity()]: the response's ["Arn"] when
    present, or an exception. *)
Inductive identity_outcome :=
  | Identity (arn : option string)
  | IdentityError (msg : string).

(** [check_identity]: [response.get("Arn", "")], then
    ["bootstrap-user" in current_arn]. *)
Definition check_identity (o : identity_outcome) : call_result bool :=
  match o with
  | Identity arn => Ret (Py.str_in "bootstrap-user" (default "" arn))
  | IdentityError msg => Exc msg
  end.

(** [validate_current_user_is_bootstrap] *)
Definition validate_current_user_is_bootstrap (ident : nat -> identity_outcome) : bool :=
  match (retry_with_backoff_default (λ a, check_identity (ident a))).2 with
  | Returned b => b
  | Raised _ => false
  end.

(** [test_permission] for one operation of [test_operations]. *)
Definition test_permission (op : nat -> call_result unit) (a : nat) : call_result bool :=
  match op a with Ret _ => Ret true | Exc e => Exc e end.

(** The loop of [validate_bootstrap_permissions]: the number of
    operations tried, and the result. *)
Fixpoint permissions_loop (ops : list (nat -> call_result unit)) : nat * bool :=
  match ops with
  | [] => (0, true)
  | op :: rest =>
      match (retry_with_backoff_default (test_permission op)).2 with
      | Raised _ => (1, false)
      | Returned _ => let '(n, b) := permissions_loop rest in (S n, b)
      end
  end.

(** [validate_bootstrap_permissions]: [list_users], [list_roles] and the
    S3 [list_buckets]. *)
Definition validate_bootstrap_permissions
    (list_users list_roles list_buckets : nat -> call_result unit) : nat * bool :=
  permissions_loop [list_users; list_roles; list_buckets].

(** Whether an operation of the loop gets through its retries. *)
Definition op_passes (op : nat -> call_result unit) : bool :=
  match (retry_with_backoff_default (test_permission op)).2 with
  | Returned _ => true
  | Raised _ => false
  end.

End ValidateFlow.

(* ================================================================= *)
(** * [create_bootstrap_role] and the S3 calls of [create_s3_backend_bucket] *)
(* ================================================================= *)

Module BootstrapRole.
Import Aws Json.

(** A role of the account: its ARN and its trust policy document. *)
Record role := { role_arn : string; assume_role_policy : json }.

Definition role_name := "PaveBootstrapRole".

(** The [trust_policy] document of [create_bootstrap_role]. *)
Definition trust_policy_for (bootstrap_user_arn : string) : json :=
  JObj [("Version", JStr "2012-10-17");
        ("Statement",
         JList [JObj [("Effect", JStr "Allow");
                      ("Principal", JObj [("AWS", JList [JStr bootstrap_user_arn])]);
                      ("Action", JStr "sts:AssumeRole")]])].

Definition find_role (roles : list (string * role)) : option role :=
  option_map snd (find (λ r, String.eqb r.1 role_name) roles).

Section Role.
Variable account_id : string.
(** Whether IAM lets the caller make the [create_role] and [get_role]
    calls: [Ok tt], or the [ClientError] it answers with (such as
    [AccessDenied]) whatever roles exist. *)
Variable create_role_auth get_role_auth : api unit.

(** [iam_client.create_role]: [response["Role"]["Arn"]] of the new role,
    or [EntityAlreadyExists]. *)
Definition create_role (roles : list (string * role)) : api string :=
  match create_role_auth with
  | ClientError code => ClientError code
  | Ok _ =>
      match find_role roles with
      | Some _ => ClientError "EntityAlreadyExists"
      | None => Ok ("arn:aws:iam::" ++ account_id ++ ":role/" ++ role_name)
      end
  end.

(** [iam_client.get_role]: [response["Role"]["Arn"]]. *)
Definition get_role (roles : list (string * role)) : api string :=
  match get_role_auth with
  | ClientError code => ClientError code
  | Ok _ =>
      match find_role roles with
      | Some r => Ok (role_arn r)
      | None => ClientError "NoSuchEntity"
      end
  end.

(** [create_bootstrap_role]: what it returns, or the [ClientError] that
    [get_role] raises inside the [except] clause and that leaves the
    function; and the roles afterwards. *)
Definition create_bootstrap_role (roles : list (string * role))
    (bootstrap_user_arn : string) : api (option string) * list (string * role) :=
  match create_role roles with
  | Ok arn =>
      (Ok (Some arn),
       app roles [(role_name, {| role_arn := arn;
                                 assume_role_policy := trust_policy_for bootstrap_user_arn |})])
  | ClientError code =>
      if String.eqb code "EntityAlreadyExists" then
        match get_role roles with
        | Ok arn => (Ok (Some arn), roles)
        | ClientError e => (ClientError e, roles)
        end
      else (Ok None, roles)
  end.

End Role.

End BootstrapRole.

Module BootstrapBucket.
Import Aws.

(** The S3 calls [create_s3_backend_bucket] makes, in the default region
    [us-east-1]. *)
Record s3_calls := {
  head_bucket : api unit;
  create_bucket : api unit;
  put_bucket_versioning : api unit;
  put_bucket_encryption : api unit;
  put_public_access_block : api unit }.

(** The changes the calls make to the bucket. *)
Inductive change :=
  | Created
  | VersioningEnabled
  | EncryptionAES256
  | PublicAccessBlocked.

(** The result and the changes made, in order. *)
Definition create_s3_backend_bucket (c : s3_calls) : bool * list change :=
  match head_bucket c with
  | Ok _ => (true, [])
  | ClientError code =>
      if negb (String.eqb code "404") then (false, [])
      else
        match create_bucket c with
        | ClientError _ => (false, [])
        | Ok _ =>
        match put_bucket_versioning c with
        | ClientError _ => (false, [Created])
        | Ok _ =>
        match put_bucket_encryption c with
        | ClientError _ => (false, [Created; VersioningEnabled])
        | Ok _ =>
        match put_public_access_block c with
        | ClientError _ => (false, [Created; VersioningEnabled; EncryptionAES256])
        | Ok _ => (true, [Created; VersioningEnabled; EncryptionAES256; PublicAccessBlocked])
        end end end end
  end.

End BootstrapBucket.


(* ================================================================= *)
(** * Characterisations used in the statements and proofs *)
(* ================================================================= *)

Module DriftSpec.
(** The issue list of a comparison: one message per non-empty category. *)
Definition issue_count (missing extra : gset string) : nat :=
  (if decide (missing = ∅) then 0 else 1) + (if decide (extra = ∅) then 0 else 1).

End DriftSpec.

Module TrustSpec.
Import Json.

(** A statement object of a trust policy whose [Principal.AWS], where
    [Principal] is an object that has it, is a string or an array. *)
Definition statement_shaped (st : json) : Prop :=
  ∃ skvs, st = JObj skvs ∧
    ∀ pkvs v, lookup "Principal" skvs = Some (JObj pkvs) → lookup "AWS" pkvs = Some v →
      (∃ s, v = JStr s) ∨ (∃ l, v = JList l).

(** The statement names [arn] in [Principal.AWS], as that string or as an
    element of that array. *)
Definition names_aws (arn : string) (st : json) : Prop :=
  ∃ skvs pkvs, st = JObj skvs ∧ lookup "Principal" skvs = Some (JObj pkvs) ∧
    (lookup "AWS" pkvs = Some (JStr arn) ∨
     ∃ l, lookup "AWS" pkvs = Some (JList l) ∧ In (JStr arn) l).

(** The statement's [Principal.Federated] is the string [fed]. *)
Definition names_federated (fed : string) (st : json) : Prop :=
  ∃ skvs pkvs, st = JObj skvs ∧ lookup "Principal" skvs = Some (JObj pkvs) ∧
    lookup "Federated" pkvs = Some (JStr fed).

(** The issues of one evaluated check, as [run_full_drift_detection]
    appends them. *)
Definition outcome_issues (c : string * Json.result (bool * list string)) : list string :=
  match c.2 with
  | Json.Returns (passed, issues) => if passed then [] else issues
  | Json.Raises e => ["Failed to check " ++ c.1 ++ ": " ++ e]
  end.

Definition outcome_passed (c : string * Json.result (bool * list string)) : bool :=
  match c.2 with Returns (passed, _) => passed | Json.Raises _ => false end.

End TrustSpec.

Module DriftExamples.
Import Drift DriftCheck Json DriftDetector.

Definition pol (n : string) : policy_entry :=
  {| p_name := n; p_arn := "arn:aws:iam::256140316797:policy/" ++ n |}.

(** The statement [create_roles] writes for [DeveloperRole]. *)
Definition admin_statement : json :=
  JObj [("Effect", JStr "Allow");
        ("Principal", JObj [("AWS", JStr admin_user_arn)]);
        ("Action", JStr "sts:AssumeRole")].

Definition oidc_statement : json :=
  JObj [("Effect", JStr "Allow");
        ("Principal", JObj [("Federated", JStr expected_federated)]);
        ("Action", JStr "sts:AssumeRoleWithWebIdentity")].

(** A trust policy document with the given ["Statement"] value. *)
Definition trust_doc (statement : json) : json :=
  JObj [("Version", JStr "2012-10-17"); ("Statement", statement)].

Definition developer_role (trust : json) : role_doc :=
  {| rd_attached_policies := map pol developer_role_expected_attached;
     rd_inline_policies := [];
     rd_assume_role_policy := trust |}.

Definition cicd_role : role_doc :=
  {| rd_attached_policies :=
       map pol ["CICDS3SpecificAccess"; "AmazonS3FullAccess"; "AWSLambda_FullAccess"];
     rd_inline_policies := [];
     rd_assume_role_policy := trust_doc (JList [oidc_statement]) |}.

(** An account without drift except, possibly, in the trust policy of
    [DeveloperRole]. *)
Definition account_with (trust : json) : account :=
  {| acc_developer_user := Returns (Some
       {| u_attached_policies := map pol ["DeveloperExtendedPolicy"; "AmazonEC2ReadOnlyAccess"];
          u_inline_policies := ["DeveloperComprehensivePolicy"];
          u_groups := [] |});
     acc_admin_user := Returns (Some
       {| u_attached_policies := map pol ["PaveAdminPolicy"];
          u_inline_policies := [];
          u_groups := [] |});
     acc_developer_role := Returns (Some (developer_role trust));
     acc_cicd_role := Returns (Some cicd_role) |}.

End DriftExamples.

Module CleanupSpec.
Import Cleanup.

(** The inclusion tests of the [find_pave_*] loops, as predicates. *)
Definition user_candidate (u : string) : bool :=
  negb (String.eqb u "pave-bootstrap-user") &&
  (String.eqb u "admin-user" || String.eqb u "developer-user" ||
   Py.str_in "admin-user-" u || Py.str_in "developer-user-" u).

Definition role_candidate (r : string) : bool :=
  negb (String.eqb r "PaveBootstrapRole") &&
  (String.eqb r "CICDDeploymentRole" || String.eqb r "DeveloperRole" ||
   Py.str_in "CICDDeploymentRole-" r || Py.str_in "DeveloperRole-" r).

Definition policy_candidate (p : policy) : bool :=
  negb (String.eqb (pol_name p) "PaveBootstrapPolicy") &&
  (String.eqb (pol_name p) "CICDS3SpecificAccess" ||
   String.eqb (pol_name p) "PaveAdminPolicy" ||
   Py.str_in "CICDS3SpecificAccess-" (pol_name p)).


(** The trace of a run that goes past discovery. *)
Definition full_trace fails (lst : listing) : list (action * bool) :=
  cleanup_users fails (find_pave_users (l_users lst)) ++
  cleanup_roles fails (find_pave_roles (l_roles lst)) ++
  cleanup_policies fails (find_pave_policies (l_policies lst)) ++
  cleanup_buckets fails (find_pave_buckets (l_buckets lst)) ++
  [attempt fails CleanupLocalFiles].


End CleanupSpec.

Module CleanupExcSpec.
Import Cleanup CleanupExc.

(** The run goes past the confirmation step. *)
Definition proceeds (inv : invocation) : bool :=
  skip_confirm inv ||
  match answer inv with Some c => String.eqb (Py.lower c) "y" | None => false end.






(** The exception of step [a] leaves [main]. *)
Definition escapes (ends : action -> call_end) (a : action) : bool :=
  match ends a with Uncaught _ => negb (catches_all a) | _ => false end.

(** What a step's trace entry records when the run reaches it. *)
Definition succeeded (ends : action -> call_end) (a : action) : bool :=
  match ends a with Done => true | _ => false end.

End CleanupExcSpec.

Module BootstrapSpec.
Import Bootstrap.





End BootstrapSpec.

(** Predicates used by the statements about the remaining functions. *)
Module ExtraSpec.

(** Once a batch [b] handed to [delete_objects] fails, it is the last
    batch and the emptying reports the failure. *)
Definition stops_at_failure (f : list CleanupBucket.version -> bool)
    (r : list (list CleanupBucket.version) * bool) :=
  ∀ pre b post, r.1 = (pre ++ b :: post)%list → f b = true → post = [] ∧ r.2 = false.

(** The total time slept. *)
Definition total (ds : list Q) : Q := fold_right Qplus 0%Q ds.


End ExtraSpec.

(* ----------------------------------------------------------------- *)
(** ** Comparator lemmas *)
(* ----------------------------------------------------------------- *)

Module DriftFacts.
Import Drift DriftSpec.

Lemma diff_empty_iff_eq (O E : gset string) :
  (E ∖ O = ∅ ∧ O ∖ E = ∅) ↔ O = E.
Proof.
  split.
  - intros [H1 H2]. apply set_eq. intros x. split; intros Hx.
    + destruct (decide (x ∈ E)) as [|Hn]; [done|].
      assert (x ∈ O ∖ E) by set_solver. rewrite H2 in *. set_solver.
    + destruct (decide (x ∈ O)) as [|Hn]; [done|].
      assert (x ∈ E ∖ O) by set_solver. rewrite H1 in *. set_solver.
  - intros ->. split; set_solver.
Qed.


Lemma compare_policies_issues aws expected r :
  let O : gset string := list_to_set (map p_name aws) in
  let E : gset string := list_to_set expected in
  snd (compare_policies aws expected r) =
    app (if decide (E ∖ O = ∅) then []
         else ["Missing policies in " ++ r ++ ": " ++ Py.join ", " (elements (E ∖ O))])
        (if decide (O ∖ E = ∅) then []
         else ["Extra policies in " ++ r ++ ": " ++ Py.join ", " (elements (O ∖ E))]).
Proof. reflexivity. Qed.

Lemma compare_policies_pass aws expected r :
  fst (compare_policies aws expected r) = true ↔
  (list_to_set (map p_name aws) : gset string) = list_to_set expected.
Proof.
  etransitivity; [|apply diff_empty_iff_eq].
  unfold compare_policies; simpl.
  destruct (decide (_ ∖ _ = ∅)), (decide (_ ∖ _ = ∅)); simpl;
    intuition congruence.
Qed.

Lemma compare_policies_length aws expected r :
  let O : gset string := list_to_set (map p_name aws) in
  let E : gset string := list_to_set expected in
  length (snd (compare_policies aws expected r)) = issue_count (E ∖ O) (O ∖ E).
Proof.
  unfold compare_policies, issue_count; simpl.
  destruct (decide (_ ∖ _ = ∅)), (decide (_ ∖ _ = ∅)); reflexivity.
Qed.

Lemma compare_inline_policies_pass aws expected r :
  fst (compare_inline_policies aws expected r) = true ↔
  (list_to_set aws : gset string) = list_to_set expected.
Proof.
  etransitivity; [|apply diff_empty_iff_eq].
  unfold compare_inline_policies; simpl.
  destruct (decide (_ ∖ _ = ∅)), (decide (_ ∖ _ = ∅)); simpl;
    intuition congruence.
Qed.

Lemma compare_inline_policies_length aws expected r :
  let O : gset string := list_to_set aws in
  let E : gset string := list_to_set expected in
  length (snd (compare_inline_policies aws expected r)) = issue_count (E ∖ O) (O ∖ E).
Proof.
  unfold compare_inline_policies, issue_count; simpl.
  destruct (decide (_ ∖ _ = ∅)), (decide (_ ∖ _ = ∅)); reflexivity.
Qed.

Lemma compare_pass_issues_nil (p : bool * list string) :
  p.1 = bool_decide (length p.2 = 0) → (p.1 = true ↔ p.2 = []).
Proof.
  destruct p as [b l]; simpl. intros ->.
  case_bool_decide as Hl; destruct l; simpl in *; split; intros; try congruence; lia.
Qed.

End DriftFacts.

Lemma list_to_set_perm_eq (l1 l2 : list string) :
  l1 ≡ₚ l2 → (list_to_set l1 : gset string) = list_to_set l2.
Proof.
  intros Hp. apply set_eq. intros x. rewrite !elem_of_list_to_set.
  by rewrite Hp.
Qed.

(* ================================================================= *)
(** * Claims about the comparator *)
(* ================================================================= *)

(** C1: [compare_policies] and [compare_inline_policies] compute
    [missing = expected \ observed] and [extra = observed \ expected] over
    the sets of names (duplicates collapse), report one issue per non-empty
    category, and pass (with no issue) exactly when observed and expected
    are equal as sets; observed [{A, B}] against expected [{B, C}] fails with
    exactly [missing = {C}] and [extra = {A}]; any permutation of the
    expected names passes. *)
Theorem compare_policies_set_semantics :
  (∀ (aws : list Drift.policy_entry) (expected : list string) r,
     let O : gset string := list_to_set (map Drift.p_name aws) in
     let E : gset string := list_to_set expected in
     length (Drift.compare_policies aws expected r).2
       = DriftSpec.issue_count (E ∖ O) (O ∖ E) ∧
     ((Drift.compare_policies aws expected r).1 = true ↔ O = E) ∧
     ((Drift.compare_policies aws expected r).2 = [] ↔ O = E)) ∧
  (∀ (aws expected : list string) r,
     let O : gset string := list_to_set aws in
     let E : gset string := list_to_set expected in
     length (Drift.compare_inline_policies aws expected r).2
       = DriftSpec.issue_count (E ∖ O) (O ∖ E) ∧
     ((Drift.compare_inline_policies aws expected r).1 = true ↔ O = E) ∧
     ((Drift.compare_inline_policies aws expected r).2 = [] ↔ O = E)) ∧
  (∀ (aws : list Drift.policy_entry) (expected : list string) r,
     map Drift.p_name aws ≡ₚ expected →
     Drift.compare_policies aws expected r = (true, [])) ∧
  (∀ (aws expected : list string) r,
     aws ≡ₚ expected → Drift.compare_inline_policies aws expected r = (true, [])) ∧
  (∀ r arnA arnB,
     let aws := [ {| Drift.p_name := "A"; Drift.p_arn := arnA |};
                  {| Drift.p_name := "B"; Drift.p_arn := arnB |} ] in
     let O : gset string := list_to_set (map Drift.p_name aws) in
     let E : gset string := list_to_set ["B"; "C"] in
     E ∖ O = {["C"]} ∧ O ∖ E = {["A"]} ∧
     Drift.compare_policies aws ["B"; "C"] r =
       (false, ["Missing policies in " ++ r ++ ": C"; "Extra policies in " ++ r ++ ": A"]) ∧
     Drift.compare_inline_policies ["A"; "B"] ["B"; "C"] r =
       (false, ["Missing inline policies in " ++ r ++ ": C";
                "Extra inline policies in " ++ r ++ ": A"])).
Proof.
  split; [|split; [|split; [|split]]].
  - intros aws expected r O E. split; [apply DriftFacts.compare_policies_length|].
    split; [apply DriftFacts.compare_policies_pass|].
    rewrite <- (DriftFacts.compare_pass_issues_nil
                  (Drift.compare_policies aws expected r) ltac:(reflexivity)).
    apply DriftFacts.compare_policies_pass.
  - intros aws expected r O E. split; [apply DriftFacts.compare_inline_policies_length|].
    split; [apply DriftFacts.compare_inline_policies_pass|].
    rewrite <- (DriftFacts.compare_pass_issues_nil
                  (Drift.compare_inline_policies aws expected r) ltac:(reflexivity)).
    apply DriftFacts.compare_inline_policies_pass.
  - intros aws expected r Hp.
    pose proof (list_to_set_perm_eq _ _ Hp) as Heq.
    unfold Drift.compare_policies; simpl. rewrite Heq.
    rewrite difference_diag_L. simpl. reflexivity.
  - intros aws expected r Hp.
    pose proof (list_to_set_perm_eq _ _ Hp) as Heq.
    unfold Drift.compare_inline_policies; simpl. rewrite Heq.
    rewrite difference_diag_L. simpl. reflexivity.
  - intros r arnA arnB aws O E.
    assert (HEO : E ∖ O = {["C"]}) by (subst O E; simpl; set_solver).
    assert (HOE : O ∖ E = {["A"]}) by (subst O E; simpl; set_solver).
    split; [exact HEO|]. split; [exact HOE|]. split.
    + unfold Drift.compare_policies. fold O E. rewrite HEO, HOE.
      rewrite !elements_singleton. reflexivity.
    + unfold Drift.compare_inline_policies.
      change (list_to_set ["A"; "B"]) with O. fold E. rewrite HEO, HOE.
      rewrite !elements_singleton. reflexivity.
Qed.

Module DriftCheckFacts.
Import Drift DriftCheck.

Lemma can_assume_aws_spec arn stmts :
  can_assume_aws arn stmts = true ↔
  ∃ st, In st stmts ∧ ∃ v fed,
    statement_principal st = PDict (Some v) fed ∧ In arn (principal_list v).
Proof.
  induction stmts as [|st rest IH]; simpl.
  - split; [discriminate|]. intros (st & [] & _).
  - destruct (statement_principal st) as [[v|] fed|s] eqn:Hp.
    + destruct (existsb (String.eqb arn) (principal_list v)) eqn:He.
      * split; [intros _|reflexivity].
        apply existsb_exists in He as (x & Hx & Heq).
        apply String.eqb_eq in Heq; subst x.
        exists st. split; [left; done|]. exists v, fed. done.
      * rewrite IH. split.
        -- intros (st' & Hin & Hst). exists st'. split; [right; done|done].
        -- intros (st' & [<-|Hin] & v' & fed' & Hp' & Harn).
           ++ rewrite Hp in Hp'. injection Hp' as <- <-.
              assert (existsb (String.eqb arn) (principal_list v) = true) as Hc.
              { apply existsb_exists. exists arn. split; [done|].
                apply String.eqb_refl. }
              congruence.
           ++ exists st'. split; [done|]. exists v', fed'. done.
    + rewrite IH. split.
      * intros (st' & Hin & Hst). exists st'. split; [right; done|done].
      * intros (st' & [<-|Hin] & v' & fed' & Hp' & Harn).
        -- congruence.
        -- exists st'. split; [done|]. exists v', fed'. done.
    + rewrite IH. split.
      * intros (st' & Hin & Hst). exists st'. split; [right; done|done].
      * intros (st' & [<-|Hin] & v' & fed' & Hp' & Harn).
        -- congruence.
        -- exists st'. split; [done|]. exists v', fed'. done.
Qed.

Lemma compare_policies_issue_shape a e r x :
  In x (compare_policies a e r).2 →
  (∃ t, x = "Missing policies in " ++ t) ∨ (∃ t, x = "Extra policies in " ++ t).
Proof.
  unfold compare_policies; simpl.
  destruct (decide (_ ∖ _ = ∅)), (decide (_ ∖ _ = ∅)); simpl;
    intros H; repeat destruct H as [H|H]; subst; eauto; contradiction.
Qed.

Lemma compare_inline_policies_issue_shape a e r x :
  In x (compare_inline_policies a e r).2 →
  (∃ t, x = "Missing inline policies in " ++ t) ∨
  (∃ t, x = "Extra inline policies in " ++ t).
Proof.
  unfold compare_inline_policies; simpl.
  destruct (decide (_ ∖ _ = ∅)), (decide (_ ∖ _ = ∅)); simpl;
    intros H; repeat destruct H as [H|H]; subst; eauto; contradiction.
Qed.

Lemma issues_of_sub r x : In x (issues_of r) → In x r.2.
Proof. unfold issues_of. destruct r.1; simpl; [intros []|done]. Qed.

Lemma bool_decide_length_nil (l : list string) :
  bool_decide (length l = 0) = false ↔ l ≠ [].
Proof. case_bool_decide as H; destruct l; simpl in *; split; congruence || lia. Qed.

End DriftCheckFacts.

(* ================================================================= *)
(** * Claims about the resource checks *)
(* ================================================================= *)

Module DriftRun.
Import Drift DriftCheck.

Lemma check_pass_iff (r : bool * list string) :
  r.1 = bool_decide (length r.2 = 0) → (r.1 = true ↔ r.2 = []).
Proof. apply DriftFacts.compare_pass_issues_nil. Qed.

Lemma check_user_pass name ea ei info :
  (check_user name ea ei info).1 = true ↔ (check_user name ea ei info).2 = [].
Proof.
  destruct info as [ui|]; [apply check_pass_iff; reflexivity|].
  simpl. split; discriminate.
Qed.

Lemma check_developer_role_pass info :
  (check_developer_role info).1 = true ↔ (check_developer_role info).2 = [].
Proof.
  destruct info as [ri|]; [apply check_pass_iff; reflexivity|].
  simpl. split; discriminate.
Qed.

Lemma check_cicd_role_pass info :
  (check_cicd_role info).1 = true ↔ (check_cicd_role info).2 = [].
Proof.
  destruct info as [ri|]; [apply check_pass_iff; reflexivity|].
  simpl. split; discriminate.
Qed.

Lemma run_checks_fst cs : (run_checks cs).1 = forallb (λ c, c.2.1) cs.
Proof.
  induction cs as [|[n [p is]] cs IH]; [reflexivity|].
  simpl. destruct (run_checks cs) as [ok acc]. simpl in IH.
  destruct p; simpl; [exact IH|reflexivity].
Qed.

End DriftRun.

Module DriftDetectorFacts.
Import Drift DriftCheck Json DriftDetector TrustSpec.

Lemma names_aws_obj arn skvs :
  names_aws arn (JObj skvs) ↔
  ∃ pkvs, lookup "Principal" skvs = Some (JObj pkvs) ∧
    (lookup "AWS" pkvs = Some (JStr arn) ∨
     ∃ l, lookup "AWS" pkvs = Some (JList l) ∧ In (JStr arn) l).
Proof.
  split.
  - intros (s & p & Hs & H). injection Hs as <-. eauto.
  - intros (p & H). exists skvs, p. auto.
Qed.

Lemma names_federated_obj fed skvs :
  names_federated fed (JObj skvs) ↔
  ∃ pkvs, lookup "Principal" skvs = Some (JObj pkvs) ∧
    lookup "Federated" pkvs = Some (JStr fed).
Proof.
  split.
  - intros (s & p & Hs & H). injection Hs as <-. eauto.
  - intros (p & H). exists skvs, p. auto.
Qed.

Lemma str_list_existsb arn l :
  existsb (λ v, match v with JStr s => String.eqb arn s | _ => false end) l = true ↔
  In (JStr arn) l.
Proof.
  rewrite existsb_exists. split.
  - intros ([s| | |] & Hin & H); try discriminate.
    apply String.eqb_eq in H. subst. exact Hin.
  - intros Hin. exists (JStr arn). split; [exact Hin|]. apply String.eqb_refl.
Qed.

Lemma can_assume_aws_shaped arn stmts :
  Forall statement_shaped stmts →
  ∃ b, can_assume_aws arn stmts = Returns b ∧ (b = true ↔ Exists (names_aws arn) stmts).
Proof.
  induction 1 as [|st rest Hst Hrest IH].
  - exists false. split; [reflexivity|]. split; [discriminate|]. intros H. inversion H.
  - destruct IH as (b & Hb & Hiff).
    destruct Hst as (skvs & -> & Hshape).
    assert (Hskip : ¬ names_aws arn (JObj skvs) →
              ∃ b', can_assume_aws arn rest = Returns b' ∧
                    (b' = true ↔ Exists (names_aws arn) (JObj skvs :: rest))).
    { intros Hn. exists b. split; [exact Hb|]. rewrite List.Exists_cons, Hiff.
      split; [tauto|]. intros [H|H]; [contradiction|exact H]. }
    cbn [can_assume_aws get].
    destruct (lookup "Principal" skvs) as [p|] eqn:Hp.
    + destruct p as [s|l|pkvs|ty];
        try (apply Hskip; rewrite names_aws_obj; intros (pk & Hpk & _); congruence).
      destruct (lookup "AWS" pkvs) as [v|] eqn:Ha;
        [|apply Hskip; rewrite names_aws_obj; intros (pk & Hpk & H);
          rewrite Hp in Hpk; injection Hpk as <-; destruct H as [H|(l & H & _)]; congruence].
      destruct (Hshape pkvs v eq_refl Ha) as [[s ->]|[l ->]]; cbn [aws_principals_contain].
      * destruct (String.eqb arn s) eqn:E.
        -- exists true. split; [reflexivity|]. split; [intros _|reflexivity].
           apply List.Exists_cons. left. apply names_aws_obj. exists pkvs.
           apply String.eqb_eq in E. subst. auto.
        -- apply Hskip. rewrite names_aws_obj. intros (pk & Hpk & H).
           rewrite Hp in Hpk; injection Hpk as <-. rewrite Ha in H.
           destruct H as [H|(l & H & _)]; [|discriminate].
           injection H as <-. rewrite String.eqb_refl in E. discriminate.
      * destruct (existsb _ l) eqn:E.
        -- exists true. split; [reflexivity|]. split; [intros _|reflexivity].
           apply List.Exists_cons. left. apply names_aws_obj. exists pkvs.
           split; [exact Hp|]. right. exists l. split; [exact Ha|].
           apply str_list_existsb. exact E.
        -- apply Hskip. rewrite names_aws_obj. intros (pk & Hpk & H).
           rewrite Hp in Hpk; injection Hpk as <-. rewrite Ha in H.
           destruct H as [H|(l' & H & Hin)]; [discriminate|].
           injection H as <-. apply str_list_existsb in Hin. congruence.
    + apply Hskip. rewrite names_aws_obj.
      intros (pk & Hpk & _). congruence.
Qed.

Lemma can_assume_federated_objects fed stmts :
  Forall (λ st, ∃ skvs, st = JObj skvs) stmts →
  ∃ b, can_assume_federated fed stmts = Returns b ∧
       (b = true ↔ Exists (names_federated fed) stmts).
Proof.
  induction 1 as [|st rest Hst Hrest IH].
  - exists false. split; [reflexivity|]. split; [discriminate|]. intros H. inversion H.
  - destruct IH as (b & Hb & Hiff).
    destruct Hst as (skvs & ->).
    assert (Hskip : ¬ names_federated fed (JObj skvs) →
              ∃ b', can_assume_federated fed rest = Returns b' ∧
                    (b' = true ↔ Exists (names_federated fed) (JObj skvs :: rest))).
    { intros Hn. exists b. split; [exact Hb|]. rewrite List.Exists_cons, Hiff.
      split; [tauto|]. intros [H|H]; [contradiction|exact H]. }
    cbn [can_assume_federated get].
    destruct (lookup "Principal" skvs) as [p|] eqn:Hp;
      [|apply Hskip; rewrite names_federated_obj; intros (pk & Hpk & _); congruence].
    destruct p as [s|l|pkvs|ty];
      try (apply Hskip; rewrite names_federated_obj; intros (pk & Hpk & _); congruence).
    destruct (lookup "Federated" pkvs) as [v|] eqn:Hf;
      [|apply Hskip; rewrite names_federated_obj; intros (pk & Hpk & H);
        rewrite Hp in Hpk; injection Hpk as <-; congruence].
    destruct v as [s|l|kv|ty];
      try (apply Hskip; rewrite names_federated_obj; intros (pk & Hpk & H);
           rewrite Hp in Hpk; injection Hpk as <-; congruence).
    destruct (String.eqb s fed) eqn:E.
    + exists true. split; [reflexivity|]. split; [intros _|reflexivity].
      apply List.Exists_cons. left. apply names_federated_obj. exists pkvs.
      apply String.eqb_eq in E. subst. auto.
    + apply Hskip. rewrite names_federated_obj. intros (pk & Hpk & H).
      rewrite Hp in Hpk. injection Hpk as <-. rewrite Hf in H. injection H as ->.
      rewrite String.eqb_refl in E. discriminate.
Qed.

Lemma shaped_object st : statement_shaped st → ∃ skvs, st = JObj skvs.
Proof. intros (skvs & H & _). eauto. Qed.

(** The trust issue of a role check, behind the two comparisons. *)
Lemma trust_issue (pol inl : list string) (can : bool) (msg : string) :
  ¬ In msg pol → ¬ In msg inl →
  (In msg (app pol (app inl (if can then [] else [msg]))) ↔ can = false) ∧
  (can = false →
   bool_decide (length (app pol (app inl (if can then [] else [msg]))) = 0) = false).
Proof.
  intros H1 H2. split.
  - rewrite !in_app_iff. destruct can; simpl; split.
    + intros [H|[H|[]]]; contradiction.
    + discriminate.
    + intros _. reflexivity.
    + intros _. right; right; left; reflexivity.
  - intros ->. apply DriftCheckFacts.bool_decide_length_nil.
    intros H. apply app_eq_nil in H as [_ H]. apply app_eq_nil in H as [_ H].
    discriminate.
Qed.

Lemma not_policy_issue a e r msg :
  (∀ t, msg ≠ "Missing policies in " ++ t) → (∀ t, msg ≠ "Extra policies in " ++ t) →
  ¬ In msg (issues_of (compare_policies a e r)).
Proof.
  intros H1 H2 H. apply DriftCheckFacts.issues_of_sub,
    DriftCheckFacts.compare_policies_issue_shape in H.
  destruct H as [[t Ht]|[t Ht]]; [exact (H1 t Ht)|exact (H2 t Ht)].
Qed.

Lemma not_inline_issue a e r msg :
  (∀ t, msg ≠ "Missing inline policies in " ++ t) →
  (∀ t, msg ≠ "Extra inline policies in " ++ t) →
  ¬ In msg (issues_of (compare_inline_policies a e r)).
Proof.
  intros H1 H2 H. apply DriftCheckFacts.issues_of_sub,
    DriftCheckFacts.compare_inline_policies_issue_shape in H.
  destruct H as [[t Ht]|[t Ht]]; [exact (H1 t Ht)|exact (H2 t Ht)].
Qed.

Lemma bool_not_true (b : bool) (P : Prop) : (b = true ↔ P) → (¬ P ↔ b = false).
Proof. intros H. rewrite <- H. destruct b; split; intros H'; congruence. Qed.

Lemma run_checks_issues cs : (run_checks cs).2 = flat_map TrustSpec.outcome_issues cs.
Proof.
  induction cs as [|[n [[p is]|e]] cs IH]; [reflexivity| |];
    simpl; destruct (run_checks cs) as [ok acc]; simpl in IH; subst acc;
    [destruct p|]; reflexivity.
Qed.

Lemma run_checks_passed cs : (run_checks cs).1 = forallb TrustSpec.outcome_passed cs.
Proof.
  induction cs as [|[n [[p is]|e]] cs IH]; [reflexivity| |];
    simpl; destruct (run_checks cs) as [ok acc]; simpl in IH; subst ok;
    [destruct p|]; reflexivity.
Qed.

Lemma run_checks_raises cs name e :
  In (name, Raises e) cs →
  In ("Failed to check " ++ name ++ ": " ++ e) (run_checks cs).2 ∧ (run_checks cs).1 = false.
Proof.
  intros Hin. rewrite run_checks_issues, run_checks_passed. split.
  - apply in_flat_map. exists (name, Raises e). split; [exact Hin|left; reflexivity].
  - apply not_true_is_false. intros H. rewrite forallb_forall in H.
    specialize (H _ Hin). discriminate.
Qed.

Lemma check_developer_role_consistent info p is :
  check_developer_role info = Returns (p, is) → (p = true ↔ is = []).
Proof.
  intros H. destruct info as [rd|].
  - unfold check_developer_role in H.
    destruct (statements_of (rd_assume_role_policy rd)) as [stmts|e]; cbn [bind] in H;
      [|discriminate].
    destruct (can_assume_aws admin_user_arn stmts) as [b|e]; cbn [bind] in H;
      [|discriminate].
    injection H as <- <-. apply (DriftRun.check_pass_iff (_, _)). reflexivity.
  - injection H as <- <-. split; discriminate.
Qed.

Lemma check_cicd_role_consistent info p is :
  check_cicd_role info = Returns (p, is) → (p = true ↔ is = []).
Proof.
  intros H. destruct info as [rd|].
  - unfold check_cicd_role in H.
    destruct (statements_of (rd_assume_role_policy rd)) as [stmts|e]; cbn [bind] in H;
      [|discriminate].
    destruct (can_assume_federated expected_federated stmts) as [b|e]; cbn [bind] in H;
      [|discriminate].
    injection H as <- <-. apply (DriftRun.check_pass_iff (_, _)). reflexivity.
  - injection H as <- <-. split; discriminate.
Qed.

(** Every check that returns fails exactly when it has an issue. *)
Lemma checks_consistent acc :
  Forall (λ c, ∀ p is, c.2 = Returns (p, is) → (p = true ↔ is = [])) (checks acc).
Proof.
  unfold checks.
  apply List.Forall_cons; [|apply List.Forall_cons; [|apply List.Forall_cons; [|apply List.Forall_cons; [|apply List.Forall_nil]]]];
    simpl; intros p is.
  - destruct (acc_developer_user acc) as [i|e]; cbn [bind]; [|discriminate].
    intros H. injection H as H.
    pose proof (DriftRun.check_user_pass "developer-user"
      ["DeveloperExtendedPolicy"; "AmazonEC2ReadOnlyAccess"]
      ["DeveloperComprehensivePolicy"] i) as Hc.
    unfold check_developer_user in H. rewrite H in Hc. exact Hc.
  - destruct (acc_admin_user acc) as [i|e]; cbn [bind]; [|discriminate].
    intros H. injection H as H.
    pose proof (DriftRun.check_user_pass "admin-user" ["PaveAdminPolicy"] [] i) as Hc.
    unfold check_admin_user in H. rewrite H in Hc. exact Hc.
  - destruct (acc_developer_role acc) as [i|e]; cbn [bind]; [|discriminate].
    apply check_developer_role_consistent.
  - destruct (acc_cicd_role acc) as [i|e]; cbn [bind]; [|discriminate].
    apply check_cicd_role_consistent.
Qed.

Lemma flat_map_outcome_nil (cs : list (string * result (bool * list string))) :
  Forall (λ c, ∀ p is, c.2 = Returns (p, is) → (p = true ↔ is = [])) cs →
  (forallb TrustSpec.outcome_passed cs = false ↔ flat_map TrustSpec.outcome_issues cs ≠ []).
Proof.
  induction 1 as [|[n r] cs Hc Hcs IH]; simpl in *.
  - split; [discriminate|]. intros H; exfalso; apply H; reflexivity.
  - unfold TrustSpec.outcome_passed at 1, TrustSpec.outcome_issues at 1. simpl.
    destruct r as [[p is]|e].
    + destruct p; simpl; [exact IH|].
      split; [intros _|reflexivity].
      destruct is as [|x is]; [destruct (Hc false [] eq_refl) as [_ H]; discriminate (H eq_refl)|].
      simpl. discriminate.
    + simpl. split; [intros _; discriminate|reflexivity].
Qed.


End DriftDetectorFacts.

(** C2 (amended): on a trust policy whose ["Statement"] is absent or a
    JSON array of statement objects, each with a [Principal.AWS], where
    present, that is a string or an array, [check_developer_role] reports
    "DeveloperRole cannot be assumed by admin-user" exactly when no
    statement names admin-user's ARN there, as that string or as an element
    of that array, and the check then fails, whatever the other statements;
    [check_cicd_role] does the same with a [Principal.Federated] equal to
    the GitHub OIDC provider ARN. When ["Statement"] is a single non-empty
    object, both checks raise [AttributeError] before any principal is
    read: the run records "Failed to check <role>: 'str' object has no
    attribute 'get'" and reports drift. *)
Theorem role_trust_policy_check :
  (∀ attached inline kvs stmts,
     (Json.lookup "Statement" kvs = None ∧ stmts = [] ∨
      Json.lookup "Statement" kvs = Some (Json.JList stmts)) →
     Forall TrustSpec.statement_shaped stmts →
     let rd := {| DriftDetector.rd_attached_policies := attached;
                  DriftDetector.rd_inline_policies := inline;
                  DriftDetector.rd_assume_role_policy := Json.JObj kvs |} in
     (∃ r, DriftDetector.check_developer_role (Some rd) = Json.Returns r ∧
        (In "DeveloperRole cannot be assumed by admin-user" r.2 ↔
           ¬ Exists (TrustSpec.names_aws DriftCheck.admin_user_arn) stmts) ∧
        (¬ Exists (TrustSpec.names_aws DriftCheck.admin_user_arn) stmts → r.1 = false)) ∧
     (∃ r, DriftDetector.check_cicd_role (Some rd) = Json.Returns r ∧
        (In "CICDDeploymentRole cannot be assumed by GitHub Actions OIDC" r.2 ↔
           ¬ Exists (TrustSpec.names_federated DriftCheck.expected_federated) stmts) ∧
        (¬ Exists (TrustSpec.names_federated DriftCheck.expected_federated) stmts →
         r.1 = false))) ∧
  (∀ attached inline kvs skvs,
     Json.lookup "Statement" kvs = Some (Json.JObj skvs) → skvs ≠ [] →
     let rd := {| DriftDetector.rd_attached_policies := attached;
                  DriftDetector.rd_inline_policies := inline;
                  DriftDetector.rd_assume_role_policy := Json.JObj kvs |} in
     DriftDetector.check_developer_role (Some rd) =
       Json.Raises "'str' object has no attribute 'get'" ∧
     DriftDetector.check_cicd_role (Some rd) =
       Json.Raises "'str' object has no attribute 'get'" ∧
     (∀ acc, DriftDetector.acc_developer_role acc = Json.Returns (Some rd) →
        In "Failed to check DeveloperRole: 'str' object has no attribute 'get'"
          (DriftDetector.run_checks (DriftDetector.checks acc)).2 ∧
        DriftDetector.run_full_drift_detection acc = false) ∧
     (∀ acc, DriftDetector.acc_cicd_role acc = Json.Returns (Some rd) →
        In "Failed to check CICDDeploymentRole: 'str' object has no attribute 'get'"
          (DriftDetector.run_checks (DriftDetector.checks acc)).2 ∧
        DriftDetector.run_full_drift_detection acc = false)).
Proof.
  split.
  - intros attached inline kvs stmts Hst Hshape rd; subst rd.
    assert (Hstm : DriftDetector.statements_of (Json.JObj kvs) = Json.Returns stmts).
    { unfold DriftDetector.statements_of. cbn [Json.get Json.bind].
      destruct Hst as [[Hn ->]|Hs]; [rewrite Hn|rewrite Hs]; reflexivity. }
    split.
    + destruct (DriftDetectorFacts.can_assume_aws_shaped DriftCheck.admin_user_arn stmts Hshape)
        as (b & Hb & Hiff).
      eexists. split.
      { unfold DriftDetector.check_developer_role. cbn [DriftDetector.rd_assume_role_policy].
        rewrite Hstm. cbn [Json.bind]. rewrite Hb. cbn [Json.bind]. reflexivity. }
      cbn [fst snd]. rewrite (DriftDetectorFacts.bool_not_true _ _ Hiff).
      apply DriftDetectorFacts.trust_issue.
      * apply DriftDetectorFacts.not_policy_issue; intros t H; discriminate H.
      * apply DriftDetectorFacts.not_inline_issue; intros t H; discriminate H.
    + assert (Hobj : Forall (λ st, ∃ skvs, st = Json.JObj skvs) stmts)
        by (eapply Forall_impl; [exact Hshape|apply DriftDetectorFacts.shaped_object]).
      destruct (DriftDetectorFacts.can_assume_federated_objects
                  DriftCheck.expected_federated stmts Hobj) as (b & Hb & Hiff).
      eexists. split.
      { unfold DriftDetector.check_cicd_role. cbn [DriftDetector.rd_assume_role_policy].
        rewrite Hstm. cbn [Json.bind]. rewrite Hb. cbn [Json.bind]. reflexivity. }
      cbn [fst snd]. rewrite (DriftDetectorFacts.bool_not_true _ _ Hiff).
      apply DriftDetectorFacts.trust_issue.
      * apply DriftDetectorFacts.not_policy_issue; intros t H; discriminate H.
      * apply DriftDetectorFacts.not_inline_issue; intros t H; discriminate H.
  - intros attached inline kvs skvs Hs Hne rd.
    destruct skvs as [|[k v] skvs]; [contradiction|].
    assert (Hstm : DriftDetector.statements_of (Json.JObj kvs) =
                   Json.Returns (map (λ kv, Json.JStr kv.1) ((k, v) :: skvs))).
    { unfold DriftDetector.statements_of. cbn [Json.get Json.bind]. rewrite Hs.
      reflexivity. }
    assert (Hdev : DriftDetector.check_developer_role (Some rd) =
                   Json.Raises "'str' object has no attribute 'get'").
    { subst rd. unfold DriftDetector.check_developer_role.
      cbn [DriftDetector.rd_assume_role_policy]. rewrite Hstm. reflexivity. }
    assert (Hcicd : DriftDetector.check_cicd_role (Some rd) =
                    Json.Raises "'str' object has no attribute 'get'").
    { subst rd. unfold DriftDetector.check_cicd_role.
      cbn [DriftDetector.rd_assume_role_policy]. rewrite Hstm. reflexivity. }
    split; [exact Hdev|]. split; [exact Hcicd|]. split.
    + intros acc Hacc. unfold DriftDetector.run_full_drift_detection.
      apply (DriftDetectorFacts.run_checks_raises _ "DeveloperRole"
               "'str' object has no attribute 'get'").
      unfold DriftDetector.checks. rewrite Hacc. cbn [Json.bind]. rewrite Hdev.
      simpl. tauto.
    + intros acc Hacc. unfold DriftDetector.run_full_drift_detection.
      apply (DriftDetectorFacts.run_checks_raises _ "CICDDeploymentRole"
               "'str' object has no attribute 'get'").
      unfold DriftDetector.checks. rewrite Hacc. cbn [Json.bind]. rewrite Hcicd.
      simpl. tauto.
Qed.

Lemma role_trust_policy_check_witness :
  (∃ r, DriftDetector.check_developer_role
          (Some (DriftExamples.developer_role
                   (DriftExamples.trust_doc (Json.JList [DriftExamples.admin_statement])))) =
        Json.Returns r ∧
        (In "DeveloperRole cannot be assumed by admin-user" r.2 ↔
           ¬ Exists (TrustSpec.names_aws DriftCheck.admin_user_arn)
               [DriftExamples.admin_statement])) ∧
  DriftDetector.run_full_drift_detection
    (DriftExamples.account_with (DriftExamples.trust_doc DriftExamples.admin_statement)) = false.
Proof.
  split.
  - assert (Hshape : Forall TrustSpec.statement_shaped [DriftExamples.admin_statement]).
    { apply List.Forall_cons; [|apply List.Forall_nil].
      eexists; split; [reflexivity|]. intros pkvs v Hp Ha.
      vm_compute in Hp. injection Hp as <-. vm_compute in Ha. injection Ha as <-.
      left; eexists; reflexivity. }
    destruct (proj1 role_trust_policy_check
                (map DriftExamples.pol DriftCheck.developer_role_expected_attached) []
                [("Version", Json.JStr "2012-10-17");
                 ("Statement", Json.JList [DriftExamples.admin_statement])]
                [DriftExamples.admin_statement]
                (or_intror eq_refl) Hshape) as [(r & Hr & Hin & _) _].
    exists r. split; [exact Hr|exact Hin].
  - destruct (proj2 role_trust_policy_check
                (map DriftExamples.pol DriftCheck.developer_role_expected_attached) []
                [("Version", Json.JStr "2012-10-17");
                 ("Statement", DriftExamples.admin_statement)]
                [("Effect", Json.JStr "Allow");
                 ("Principal", Json.JObj [("AWS", Json.JStr DriftCheck.admin_user_arn)]);
                 ("Action", Json.JStr "sts:AssumeRole")]
                eq_refl ltac:(discriminate)) as (_ & _ & Hrun & _).
    exact (proj2 (Hrun (DriftExamples.account_with (DriftExamples.trust_doc DriftExamples.admin_statement)) eq_refl)).
Defined.

(** C2 as stated fails: the same statement naming admin-user passes the
    check inside a ["Statement"] array, but as a single ["Statement"]
    object the check raises [AttributeError], the run records it as a
    failed check and [main] exits 1. *)
Lemma statement_object_breaks_trust_check :
  DriftDetector.check_developer_role
    (Some (DriftExamples.developer_role
             (DriftExamples.trust_doc (Json.JList [DriftExamples.admin_statement])))) =
    Json.Returns (true, []) ∧
  DriftDetector.check_developer_role
    (Some (DriftExamples.developer_role
             (DriftExamples.trust_doc DriftExamples.admin_statement))) =
    Json.Raises "'str' object has no attribute 'get'" ∧
  DriftDetector.run_checks (DriftDetector.checks
    (DriftExamples.account_with (DriftExamples.trust_doc (Json.JList [DriftExamples.admin_statement])))) =
    (true, []) ∧
  DriftDetector.run_checks (DriftDetector.checks
    (DriftExamples.account_with (DriftExamples.trust_doc DriftExamples.admin_statement))) =
    (false, ["Failed to check DeveloperRole: 'str' object has no attribute 'get'"]) ∧
  DriftDetector.main true
    (DriftExamples.account_with (DriftExamples.trust_doc DriftExamples.admin_statement)) = 1.
Proof. vm_compute. repeat split. Qed.

(** C8: for each checked user or role that does not exist in AWS
    ([get_user_info] / [get_role_info] give [exists = False]), the check
    fails with exactly the one issue "<name> does not exist in AWS", whatever
    the expected policies and trust relationship would have compared. *)
Theorem missing_entity_single_issue :
  DriftCheck.check_developer_user None =
    (false, ["developer-user does not exist in AWS"]) ∧
  DriftCheck.check_admin_user None = (false, ["admin-user does not exist in AWS"]) ∧
  DriftCheck.check_developer_role None = (false, ["DeveloperRole does not exist in AWS"]) ∧
  DriftCheck.check_cicd_role None =
    (false, ["CICDDeploymentRole does not exist in AWS"]) ∧
  (∀ name ea ei, DriftCheck.check_user name ea ei None =
                   (false, [name ++ " does not exist in AWS"])).
Proof. repeat split. Qed.

Module CleanupFacts.
Import Cleanup CleanupSpec.

Lemma find_pave_users_loop_filter l :
  find_pave_users_loop l = List.filter user_candidate l.
Proof.
  induction l as [|u l IH]; [reflexivity|].
  simpl. unfold user_candidate at 1.
  destruct (String.eqb u "pave-bootstrap-user"); simpl; [exact IH|].
  destruct (_ || _); simpl; rewrite IH; reflexivity.
Qed.

Lemma find_pave_roles_loop_filter l :
  find_pave_roles_loop l = List.filter role_candidate l.
Proof.
  induction l as [|r l IH]; [reflexivity|].
  simpl. unfold role_candidate at 1.
  destruct (String.eqb r "PaveBootstrapRole"); simpl; [exact IH|].
  destruct (_ || _); simpl; rewrite IH; reflexivity.
Qed.

Lemma find_pave_policies_loop_filter l :
  find_pave_policies_loop l = List.filter policy_candidate l.
Proof.
  induction l as [|p l IH]; [reflexivity|].
  simpl. unfold policy_candidate at 1.
  destruct (String.eqb (pol_name p) "PaveBootstrapPolicy"); simpl; [exact IH|].
  destruct (_ || _); simpl; rewrite IH; reflexivity.
Qed.


Lemma in_find_pave_users r u :
  In u (find_pave_users r) → user_candidate u = true.
Proof.
  destruct r as [l|]; simpl; [|intros []].
  rewrite find_pave_users_loop_filter, List.filter_In. tauto.
Qed.

Lemma in_find_pave_roles r x :
  In x (find_pave_roles r) → role_candidate x = true.
Proof.
  destruct r as [l|]; simpl; [|intros []].
  rewrite find_pave_roles_loop_filter, List.filter_In. tauto.
Qed.

Lemma in_find_pave_policies r p :
  In p (find_pave_policies r) → policy_candidate p = true.
Proof.
  destruct r as [l|]; simpl; [|intros []].
  rewrite find_pave_policies_loop_filter, List.filter_In. tauto.
Qed.

End CleanupFacts.

(* ================================================================= *)
(** * Claims about cleanup discovery *)
(* ================================================================= *)

(** C3: whatever the [list_users], [list_roles] and [list_policies] calls
    return, none of the names [pave-bootstrap-user], [PaveBootstrapRole],
    [PaveBootstrapPolicy] is in the user, role or policy candidate list
    returned by [find_pave_users], [find_pave_roles], [find_pave_policies]. *)
Theorem cleanup_never_lists_bootstrap :
  ∀ (ru rr : option (list string)) (rp : option (list Cleanup.policy)),
  Forall (λ n, ¬ In n (Cleanup.find_pave_users ru) ∧
               ¬ In n (Cleanup.find_pave_roles rr) ∧
               ¬ In n (map Cleanup.pol_name (Cleanup.find_pave_policies rp)))
    ["pave-bootstrap-user"; "PaveBootstrapRole"; "PaveBootstrapPolicy"].
Proof.
  intros ru rr rp. rewrite List.Forall_forall.
  intros n Hn. split; [|split].
  - intros H. apply CleanupFacts.in_find_pave_users in H.
    destruct Hn as [<-|[<-|[<-|[]]]]; vm_compute in H; discriminate.
  - intros H. apply CleanupFacts.in_find_pave_roles in H.
    destruct Hn as [<-|[<-|[<-|[]]]]; vm_compute in H; discriminate.
  - intros H. apply in_map_iff in H as (p & Hname & Hp).
    apply CleanupFacts.in_find_pave_policies in Hp.
    unfold CleanupSpec.policy_candidate in Hp. rewrite Hname in Hp.
    destruct Hn as [<-|[<-|[<-|[]]]]; vm_compute in Hp; discriminate.
Qed.

(** C4: for a successful [list_users] response, [find_pave_users] returns
    exactly (in order) the names equal to [admin-user] or [developer-user]
    or containing [admin-user-] or [developer-user-], [pave-bootstrap-user]
    excluded; [other-user] is never a candidate. *)
Theorem find_pave_users_exact :
  (∀ l : list string,
     Cleanup.find_pave_users (Some l) =
     List.filter (λ u, negb (String.eqb u "pave-bootstrap-user") &&
                       (String.eqb u "admin-user" || String.eqb u "developer-user" ||
                        Py.str_in "admin-user-" u || Py.str_in "developer-user-" u)) l) ∧
  (∀ (l : list string) u,
     In u (Cleanup.find_pave_users (Some l)) ↔
     In u l ∧ (u = "admin-user" ∨ u = "developer-user" ∨
               Py.str_in "admin-user-" u = true ∨ Py.str_in "developer-user-" u = true)) ∧
  (∀ r, ¬ In "other-user" (Cleanup.find_pave_users r)).
Proof.
  split; [|split].
  - intros l. apply CleanupFacts.find_pave_users_loop_filter.
  - intros l u. simpl. rewrite CleanupFacts.find_pave_users_loop_filter, List.filter_In.
    unfold CleanupSpec.user_candidate.
    rewrite andb_true_iff, negb_true_iff, !orb_true_iff, !String.eqb_eq.
    split.
    + intros (Hin & _ & H). split; [done|]. tauto.
    + intros (Hin & H). split; [done|]. split; [|tauto].
      destruct (String.eqb_spec u "pave-bootstrap-user") as [->|]; [|done].
      exfalso. destruct H as [H|[H|[H|H]]]; try discriminate; vm_compute in H; discriminate.
  - intros r H. apply CleanupFacts.in_find_pave_users in H. vm_compute in H. discriminate.
Qed.

Module RetryFacts.
Import Retry.

Section Facts.
Context {A : Type} (func : nat -> call_result A) (max_attempts : nat)
        (initial_delay : Q).

Local Abbreviation loop := (retry_loop func max_attempts initial_delay).

(** [k] retryable failures from iteration [a] on: [k] sleeps with the
    doubling delays, then the loop continues at iteration [a + k]. *)
Lemma retry_loop_failures k : ∀ a,
  a + k < max_attempts →
  (∀ i, a ≤ i < a + k → ∃ e, func i = Exc e ∧ is_retryable e = true) →
  loop a (max_attempts - a) =
    (app (map (delay initial_delay) (seq a k)) (loop (a + k) (max_attempts - (a + k))).1,
     (loop (a + k) (max_attempts - (a + k))).2).
Proof.
  induction k as [|k IH]; intros a Hlt Hfail.
  - rewrite Nat.add_0_r. simpl. destruct (loop a _); reflexivity.
  - destruct (Hfail a ltac:(lia)) as (e & He & Hr).
    replace (max_attempts - a) with (S (max_attempts - S a)) by lia.
    simpl. rewrite He.
    replace (Nat.eqb a (max_attempts - 1)) with false
      by (symmetry; apply Nat.eqb_neq; lia).
    rewrite Hr.
    rewrite (IH (S a)) by first [lia | intros; apply Hfail; lia].
    replace (S a + k) with (a + S k) by lia. reflexivity.
Qed.

Lemma retry_loop_sleeps_bound : ∀ fuel a,
  a + fuel = max_attempts → (length (loop a fuel).1 ≤ fuel - 1)%nat.
Proof.
  induction fuel as [|fuel IH]; intros a Hinv; simpl; [lia|].
  destruct (func a) as [v|e]; simpl; [lia|].
  destruct (Nat.eqb a (max_attempts - 1)) eqn:Hlast; simpl; [lia|].
  apply Nat.eqb_neq in Hlast.
  destruct (is_retryable e); simpl; [|lia].
  specialize (IH (S a) ltac:(lia)).
  destruct (loop (S a) fuel) as [ds r]; simpl in *. lia.
Qed.

End Facts.

Lemma retry_loop_step {A} (func : nat -> call_result A) max init a fuel :
  retry_loop func max init a (S fuel) =
  match func a with
  | Ret v => ([], Returned v)
  | Exc e =>
      if Nat.eqb a (max - 1) then ([], Raised e)
      else if is_retryable e then
        let '(sleeps, r) := retry_loop func max init (S a) fuel in
        (delay init a :: sleeps, r)
      else ([], Raised e)
  end.
Proof. reflexivity. Qed.

Lemma keyword_retryable e k :
  In k keywords → Py.str_in k (Py.lower e) = true → is_retryable e = true.
Proof. intros Hk He. apply existsb_exists. exists k. done. Qed.

End RetryFacts.

(* ================================================================= *)
(** * Claims about the retry helper *)
(* ================================================================= *)

Module RetryProofs.
Import Retry RetryFacts.

Lemma retry_prefix {A} (func : nat -> call_result A) max init k :
  k < max →
  (∀ i, i < k → ∃ e, func i = Exc e ∧ is_retryable e = true) →
  retry_with_backoff func max init =
    (app (map (delay init) (seq 0 k)) (retry_loop func max init k (S (max - S k))).1,
     (retry_loop func max init k (S (max - S k))).2).
Proof.
  intros Hk Hf. unfold retry_with_backoff.
  pose proof (retry_loop_failures func max init k 0 ltac:(lia)
                ltac:(intros i Hi; apply Hf; lia)) as H.
  rewrite Nat.sub_0_r in H. rewrite H. simpl.
  replace (max - k) with (S (max - S k)) by lia. reflexivity.
Qed.

End RetryProofs.

(** C6: [retry_with_backoff] retries an error classified as transient
    ([is_retryable]) after sleeping [initial_delay * 2^attempt], for at
    most [max_attempts] calls (default 6, so at most 5 sleeps); an error not
    so classified is raised at once with no further call or sleep; the
    error of the last attempt is raised to the caller. *)
Theorem retry_with_backoff_policy :
  ∀ (A : Type) (func : nat -> Retry.call_result A) (max_attempts : nat)
    (initial_delay : Q),
  let delays k := map (λ attempt, (initial_delay * inject_Z (2 ^ Z.of_nat attempt))%Q)
                      (seq 0 k) in
  let retried_before k := ∀ i, i < k →
        ∃ e, func i = Retry.Exc e ∧ Retry.is_retryable e = true in
  (∀ k v, k < max_attempts → retried_before k → func k = Retry.Ret v →
     Retry.retry_with_backoff func max_attempts initial_delay =
       (delays k, Retry.Returned v)) ∧
  (∀ k e, S k < max_attempts → retried_before k → func k = Retry.Exc e →
     Retry.is_retryable e = false →
     Retry.retry_with_backoff func max_attempts initial_delay =
       (delays k, Retry.Raised e)) ∧
  (∀ m e, max_attempts = S m → retried_before m → func m = Retry.Exc e →
     Retry.retry_with_backoff func max_attempts initial_delay =
       (delays m, Retry.Raised e)) ∧
  (length (Retry.retry_with_backoff func max_attempts initial_delay).1
     ≤ max_attempts - 1)%nat ∧
  Retry.retry_with_backoff_default func = Retry.retry_with_backoff func 6 1.
Proof.
  intros A func max init delays retried_before.
  split; [|split; [|split; [|split]]].
  - intros k v Hk Hb Hv. rewrite (RetryProofs.retry_prefix func max init k Hk Hb).
    simpl. rewrite Hv. simpl. rewrite app_nil_r. reflexivity.
  - intros k e Hk Hb He Hr.
    rewrite (RetryProofs.retry_prefix func max init k ltac:(lia) Hb).
    simpl. rewrite He.
    replace (Nat.eqb k (max - 1)) with false by (symmetry; apply Nat.eqb_neq; lia).
    rewrite Hr. simpl. rewrite app_nil_r. reflexivity.
  - intros m e Hm Hb He. subst max.
    rewrite (RetryProofs.retry_prefix func (S m) init m ltac:(lia) Hb).
    simpl. rewrite He.
    replace (Nat.eqb m (m - 0)) with true by (symmetry; apply Nat.eqb_eq; lia).
    simpl. rewrite app_nil_r. reflexivity.
  - unfold Retry.retry_with_backoff.
    apply (RetryFacts.retry_loop_sleeps_bound func max init max 0). lia.
  - reflexivity.
Qed.

(** C10: the retryability test is a case-insensitive substring search of
    the keywords in [str(e)]; any message containing [invalid] or [token]
    (a parameter-validation error, say) is slept on and retried up to the
    attempt bound, and with at least two attempts only the messages that
    match no keyword are raised at the first failure. *)
Theorem retryable_substring_match :
  (∀ e, Retry.is_retryable e =
        existsb (λ k, Py.str_in k (Py.lower e))
          ["invalidclienttokenid"; "invalid"; "token"; "accessdenied";
           "unauthorized"; "credentials"]) ∧
  (∀ e, Py.str_in "invalid" (Py.lower e) = true ∨ Py.str_in "token" (Py.lower e) = true →
        Retry.is_retryable e = true) ∧
  Retry.is_retryable "An error occurred (ValidationError): Invalid length for parameter"
    = true ∧
  Retry.is_retryable "An error occurred (Throttling): Rate exceeded" = false ∧
  (∀ (A : Type) (func : nat -> Retry.call_result A) max_attempts initial_delay e,
     (2 ≤ max_attempts)%nat → func 0 = Retry.Exc e → Retry.is_retryable e = true →
     Retry.retry_with_backoff func max_attempts initial_delay =
       (Retry.delay initial_delay 0 ::
          (Retry.retry_loop func max_attempts initial_delay 1 (max_attempts - 1)).1,
        (Retry.retry_loop func max_attempts initial_delay 1 (max_attempts - 1)).2)) ∧
  (∀ (A : Type) (func : nat -> Retry.call_result A) max_attempts initial_delay e,
     (1 ≤ max_attempts)%nat → (∀ i, func i = Retry.Exc e) → Retry.is_retryable e = true →
     Retry.retry_with_backoff func max_attempts initial_delay =
       (map (Retry.delay initial_delay) (seq 0 (max_attempts - 1)), Retry.Raised e)) ∧
  (∀ (A : Type) (func : nat -> Retry.call_result A) max_attempts initial_delay e,
     (1 ≤ max_attempts)%nat → func 0 = Retry.Exc e → Retry.is_retryable e = false →
     Retry.retry_with_backoff func max_attempts initial_delay = ([], Retry.Raised e)).
Proof.
  split; [reflexivity|]. split.
  { intros e [H|H]; eapply RetryFacts.keyword_retryable; try exact H; simpl; tauto. }
  split; [vm_compute; reflexivity|]. split; [vm_compute; reflexivity|]. split; [|split].
  - intros A func max init e Hm He Hr. unfold Retry.retry_with_backoff.
    destruct max as [|[|n]]; [lia|lia|].
    rewrite RetryFacts.retry_loop_step, He, Hr. simpl Nat.eqb. cbv iota.
    simpl (S (S n) - 1).
    destruct (Retry.retry_loop func _ _ 1 _); reflexivity.
  - intros A func max init e Hm Hall Hr.
    destruct max as [|m]; [lia|].
    rewrite (RetryProofs.retry_prefix func (S m) init m ltac:(lia)
               ltac:(intros i _; exists e; split; [apply Hall|exact Hr])).
    simpl. rewrite Hall.
    replace (Nat.eqb m (m - 0)) with true by (symmetry; apply Nat.eqb_eq; lia).
    simpl. rewrite app_nil_r, Nat.sub_0_r. reflexivity.
  - intros A func max init e Hm He Hr. unfold Retry.retry_with_backoff.
    destruct max as [|[|n]]; [lia| |].
    + simpl. rewrite He. reflexivity.
    + simpl. rewrite He, Hr. reflexivity.
Qed.

Module BootstrapFacts.
Import Bootstrap BootstrapSpec.

#[local] Arguments String.eqb : simpl never.



Section Rerun.
Variable account_id : string.
Variable root_caller bucket_owned_elsewhere : bool.
Variable t : state.
Variable uarn : string.
Hypothesis Huser : lookup user_name (users t) = Some uarn.
Hypothesis Hpolicy : In (policy_name, policy_arn account_id policy_name) (policies t).
Hypothesis Hattached :
  In (user_name, policy_arn account_id policy_name) (attachments t).
Hypothesis Hbucket : In bucket_name (buckets t).

















End Rerun.

End BootstrapFacts.

(* ================================================================= *)
(** * Claims about bootstrap creation *)
(* ================================================================= *)




Module CleanupRun.
Import Cleanup CleanupSpec.


Lemma main_exit_code fails inv lst :
  exit_code (main fails inv lst) =
    if proceeds inv && negb (clients_ok inv) then 1 else 0.
Proof.
  unfold main, proceeds.
  destruct (skip_confirm inv), (String.eqb (Py.lower (confirmation inv)) "y"),
    (clients_ok inv); simpl; try reflexivity;
    destruct (_ && _)%bool; reflexivity.
Qed.





End CleanupRun.

(* ================================================================= *)
(** * Claims about the cleanup run and the exit statuses *)
(* ================================================================= *)



Module CleanupExcFacts.
Import Cleanup CleanupExc CleanupExcSpec.


Lemma run_actions_entries ends acts a b :
  In (a, b) (run_actions ends acts).1 → In a acts ∧ b = succeeded ends a.
Proof.
  induction acts as [|a' acts IH]; simpl; [tauto|].
  unfold succeeded at 1.
  destruct (ends a') as [| |e] eqn:He;
    [| |destruct (catches_all a')];
    try (destruct (run_actions ends acts) as [t c] eqn:Hr; simpl in *;
         intros [H|H]; [injection H as <- <-; unfold succeeded; rewrite He; tauto
                       |destruct (IH H); tauto]).
  simpl. intros [H|[]]. injection H as <- <-. unfold succeeded. rewrite He. tauto.
Qed.

Lemma run_actions_no_escape ends acts :
  (∀ a, escapes ends a = false) →
  map fst (run_actions ends acts).1 = acts ∧ (run_actions ends acts).2 = true.
Proof.
  intros Hn. induction acts as [|a acts IH]; simpl; [tauto|].
  specialize (Hn a). unfold escapes in Hn.
  destruct (ends a) as [| |e]; [| |destruct (catches_all a); [|discriminate]];
    destruct (run_actions ends acts) as [t c]; simpl in *; destruct IH as [-> ->]; tauto.
Qed.

Lemma run_actions_last ends acts pre a b post :
  (run_actions ends acts).1 = (pre ++ (a, b) :: post)%list → escapes ends a = true →
  b = false ∧ post = [] ∧ (run_actions ends acts).2 = false.
Proof.
  revert pre. induction acts as [|a' acts IH]; intros pre; simpl.
  - intros H. destruct pre; discriminate.
  - intros H Ha. unfold escapes in Ha.
    destruct (ends a') as [| |e] eqn:He; [| |destruct (catches_all a') eqn:Hc].
    1-3: destruct (run_actions ends acts) as [t c]; simpl in *;
         destruct pre as [|x pre]; simpl in H;
         [ injection H as E1 E2 E3; subst; rewrite He in Ha; try discriminate;
           rewrite Hc in Ha; discriminate
         | injection H as _ Ht; apply (IH pre Ht); unfold escapes; exact Ha ].
    simpl in *. destruct pre as [|x pre]; simpl in H.
    + injection H as E1 E2 E3. subst. auto.
    + injection H as _ Ht. destruct pre; discriminate.
Qed.



(** The run either stops before any step, with a status that does not
    depend on how the steps' calls end, or runs a fixed list of steps. *)
Lemma main_stage inv lst :
  (∃ code, ∀ ends, main ends inv lst = {| exit_code := code; trace := [] |}) ∨
  (∃ acts, ∀ ends, main ends inv lst =
     {| exit_code := if (run_actions ends acts).2 then 0 else 1;
        trace := (run_actions ends acts).1 |}).
Proof.
  unfold main.
  assert (Hafter : ∀ c,
    (∃ code, ∀ ends, after_confirmation ends c lst = {| exit_code := code; trace := [] |}) ∨
    (∃ acts, ∀ ends, after_confirmation ends c lst =
       {| exit_code := if (run_actions ends acts).2 then 0 else 1;
          trace := (run_actions ends acts).1 |})).
  { intros c. unfold after_confirmation.
    destruct c; [|left; eexists; intros; reflexivity]. cbn [negb].
    destruct (find find_pave_users (l_users lst)) as [users|];
      [|left; eexists; intros; reflexivity].
    destruct (find find_pave_roles (l_roles lst)) as [roles|];
      [|left; eexists; intros; reflexivity].
    destruct (find find_pave_policies (l_policies lst)) as [policies|];
      [|left; eexists; intros; reflexivity].
    destruct (find find_pave_buckets (l_buckets lst)) as [buckets|];
      [|left; eexists; intros; reflexivity].
    destruct (_ && _)%bool; [left; eexists; intros; reflexivity|].
    right. exists (plan users roles policies buckets). intros ends.
    destruct (run_actions ends _); reflexivity. }
  destruct (skip_confirm inv); [apply Hafter|].
  destruct (answer inv) as [c|]; [|left; eexists; intros; reflexivity].
  destruct (String.eqb (Py.lower c) "y"); [apply Hafter|].
  left; eexists; intros; reflexivity.
Qed.


End CleanupExcFacts.



(* ================================================================= *)
(** * Further properties of the drift detector *)
(* ================================================================= *)

Module DriftMore.
Import Drift DriftCheck DriftInfo.

Lemma run_checks_snd cs :
  (run_checks cs).2 = flat_map (λ c : string * (bool * list string),
                                  if c.2.1 then [] else c.2.2) cs.
Proof.
  induction cs as [|[n [p is]] cs IH]; [reflexivity|].
  simpl. destruct (run_checks cs) as [ok acc]. simpl in IH.
  destruct p; simpl; [exact IH|rewrite IH; reflexivity].
Qed.

Lemma forallb_flat_map_nil (cs : list (string * (bool * list string))) :
  Forall (λ c, c.2.1 = true ↔ c.2.2 = []) cs →
  (forallb (λ c, c.2.1) cs = false ↔
   flat_map (λ c : string * (bool * list string), if c.2.1 then [] else c.2.2) cs ≠ []).
Proof.
  induction 1 as [|[n [p is]] cs Hc Hcs IH]; simpl in *.
  - split; [discriminate|]. intros H; exfalso; apply H; reflexivity.
  - destruct p; simpl; [exact IH|].
    split; [intros _|reflexivity].
    destruct is as [|x is]; [destruct Hc as [_ H]; discriminate (H eq_refl)|].
    simpl. discriminate.
Qed.

Lemma issues_of_nil (r : bool * list string) :
  r.1 = bool_decide (length r.2 = 0) → (issues_of r = [] ↔ r.1 = true).
Proof.
  unfold issues_of. destruct r as [[|] l]; simpl; intros H; [split; reflexivity|].
  split; [|discriminate]. intros ->. vm_compute in H. discriminate.
Qed.

Lemma issues_of_compare_policies a e r :
  issues_of (compare_policies a e r) = [] ↔
  (list_to_set (map p_name a) : gset string) = list_to_set e.
Proof.
  rewrite issues_of_nil; [apply DriftFacts.compare_policies_pass|reflexivity].
Qed.

Lemma issues_of_compare_inline_policies a e r :
  issues_of (compare_inline_policies a e r) = [] ↔
  (list_to_set a : gset string) = list_to_set e.
Proof.
  rewrite issues_of_nil; [apply DriftFacts.compare_inline_policies_pass|reflexivity].
Qed.

Lemma list_to_set_nil_iff (l : list string) : (list_to_set l : gset string) = ∅ ↔ l = [].
Proof.
  split; [|intros ->; reflexivity].
  destruct l as [|x l]; [reflexivity|]. intros H.
  assert (x ∈ (list_to_set (x :: l) : gset string)) as Hx by set_solver.
  rewrite H in Hx. set_solver.
Qed.

Lemma app3_nil (a b c : list string) : app a (app b c) = [] ↔ a = [] ∧ b = [] ∧ c = [].
Proof.
  split; [|intros (-> & -> & ->); reflexivity].
  intros H. apply app_eq_nil in H as [Ha H]. apply app_eq_nil in H as [Hb Hc]. done.
Qed.

Lemma check_user_some_pass name ea ei ui :
  (check_user name ea ei (Some ui)).1 = true ↔
  (list_to_set (map p_name (u_attached_policies ui)) : gset string) = list_to_set ea ∧
  (list_to_set (u_inline_policies ui) : gset string) = list_to_set ei ∧
  u_groups ui = [].
Proof.
  rewrite (DriftRun.check_user_pass name ea ei (Some ui)). simpl. rewrite app3_nil.
  rewrite issues_of_compare_policies, issues_of_compare_inline_policies.
  destruct (u_groups ui); simpl; intuition congruence.
Qed.

Lemma can_assume_federated_spec fed stmts :
  can_assume_federated fed stmts = true ↔
  ∃ st, In st stmts ∧ ∃ aws, statement_principal st = PDict aws (Some (PVStr fed)).
Proof.
  induction stmts as [|st rest IH]; simpl.
  - split; [discriminate|]. intros (st & [] & _).
  - assert (Hrest : (∃ st', In st' rest ∧ ∃ aws, statement_principal st' = PDict aws (Some (PVStr fed)))
                    → ∃ st', (st = st' ∨ In st' rest) ∧
                             ∃ aws, statement_principal st' = PDict aws (Some (PVStr fed)))
      by (intros (st' & Hin & H); exists st'; split; [right|]; done).
    destruct (statement_principal st) as [aws [[s|l]|]|s] eqn:Hp.
    + destruct (String.eqb_spec s fed) as [->|Hne].
      * split; [intros _|reflexivity]. exists st. split; [left; done|]. exists aws. done.
      * rewrite IH. split; [exact Hrest|].
        intros (st' & [<-|Hin] & aws' & Hp'); [rewrite Hp in Hp'; congruence|].
        exists st'. split; [done|]. exists aws'. done.
    + rewrite IH. split; [exact Hrest|].
      intros (st' & [<-|Hin] & aws' & Hp'); [rewrite Hp in Hp'; congruence|].
      exists st'. split; [done|]. exists aws'. done.
    + rewrite IH. split; [exact Hrest|].
      intros (st' & [<-|Hin] & aws' & Hp'); [rewrite Hp in Hp'; congruence|].
      exists st'. split; [done|]. exists aws'. done.
    + rewrite IH. split; [exact Hrest|].
      intros (st' & [<-|Hin] & aws' & Hp'); [rewrite Hp in Hp'; congruence|].
      exists st'. split; [done|]. exists aws'. done.
Qed.

Lemma developer_role_some_pass ri :
  (check_developer_role (Some ri)).1 = true ↔
  (list_to_set (map p_name (r_attached_policies ri)) : gset string) =
    list_to_set developer_role_expected_attached ∧
  r_inline_policies ri = [] ∧
  can_assume_aws admin_user_arn (statements (r_assume_role_policy ri)) = true.
Proof.
  rewrite (DriftRun.check_developer_role_pass (Some ri)). simpl. rewrite app3_nil.
  rewrite issues_of_compare_policies, issues_of_compare_inline_policies.
  rewrite list_to_set_nil_iff.
  destruct (can_assume_aws _ _); simpl; intuition congruence.
Qed.

Lemma cicd_role_some_pass ri :
  (check_cicd_role (Some ri)).1 = true ↔
  (list_to_set (map p_name (r_attached_policies ri)) : gset string) =
    list_to_set ["CICDS3SpecificAccess"; "AmazonS3FullAccess"; "AWSLambda_FullAccess"] ∧
  r_inline_policies ri = [] ∧
  can_assume_federated expected_federated (statements (r_assume_role_policy ri)) = true.
Proof.
  rewrite (DriftRun.check_cicd_role_pass (Some ri)). simpl. rewrite app3_nil.
  rewrite issues_of_compare_policies, issues_of_compare_inline_policies.
  rewrite list_to_set_nil_iff.
  destruct (can_assume_federated _ _); simpl; intuition congruence.
Qed.

Lemma developer_role_trust_issue ri :
  can_assume_aws admin_user_arn (statements (r_assume_role_policy ri)) = false →
  In "DeveloperRole cannot be assumed by admin-user" (check_developer_role (Some ri)).2.
Proof.
  intros H. simpl. rewrite H. rewrite !in_app_iff. right; right; left; reflexivity.
Qed.

Lemma cicd_role_trust_issue ri :
  can_assume_federated expected_federated (statements (r_assume_role_policy ri)) = false →
  In "CICDDeploymentRole cannot be assumed by GitHub Actions OIDC" (check_cicd_role (Some ri)).2.
Proof.
  intros H. simpl. rewrite H. rewrite !in_app_iff. right; right; left; reflexivity.
Qed.

End DriftMore.

(** The drift summary is the issues of every failing check and a
    ["Failed to check <name>: <error>"] line for every check that raised,
    in check order; drift is reported exactly when that list is not empty. *)
Theorem drift_summary_collects_issues : ∀ acc : DriftDetector.account,
  (DriftDetector.run_checks (DriftDetector.checks acc)).2 =
    flat_map TrustSpec.outcome_issues (DriftDetector.checks acc) ∧
  (DriftDetector.run_full_drift_detection acc = false ↔
     (DriftDetector.run_checks (DriftDetector.checks acc)).2 ≠ []).
Proof.
  intros acc. split; [apply DriftDetectorFacts.run_checks_issues|].
  unfold DriftDetector.run_full_drift_detection.
  rewrite DriftDetectorFacts.run_checks_passed, DriftDetectorFacts.run_checks_issues.
  apply DriftDetectorFacts.flat_map_outcome_nil, DriftDetectorFacts.checks_consistent.
Qed.

(** [get_user_info] and [get_role_info] answer "does not exist" when any
    of their reads raises a [ClientError], whatever its code: an
    [AccessDenied] on a read is reported by the checks as the resource not
    existing in AWS, with that single issue. *)
Theorem drift_read_error_reported_as_missing :
  (∀ c : DriftInfo.user_calls,
     DriftInfo.get_user_info c = None ↔
     ∃ code, DriftInfo.list_attached_user_policies c = Aws.ClientError code ∨
             DriftInfo.list_user_policies c = Aws.ClientError code ∨
             DriftInfo.list_groups_for_user c = Aws.ClientError code) ∧
  (∀ c : DriftInfo.role_calls,
     DriftInfo.get_role_info c = None ↔
     ∃ code, DriftInfo.get_role c = Aws.ClientError code ∨
             DriftInfo.list_attached_role_policies c = Aws.ClientError code ∨
             DriftInfo.list_role_policies c = Aws.ClientError code) ∧
  (∀ (c : DriftInfo.user_calls) code,
     DriftInfo.list_attached_user_policies c = Aws.ClientError code ∨
     DriftInfo.list_user_policies c = Aws.ClientError code ∨
     DriftInfo.list_groups_for_user c = Aws.ClientError code →
     DriftCheck.check_developer_user (DriftInfo.get_user_info c) =
       (false, ["developer-user does not exist in AWS"]) ∧
     DriftCheck.check_admin_user (DriftInfo.get_user_info c) =
       (false, ["admin-user does not exist in AWS"])) ∧
  (∀ (c : DriftInfo.role_calls) code,
     DriftInfo.get_role c = Aws.ClientError code ∨
     DriftInfo.list_attached_role_policies c = Aws.ClientError code ∨
     DriftInfo.list_role_policies c = Aws.ClientError code →
     DriftCheck.check_developer_role (DriftInfo.get_role_info c) =
       (false, ["DeveloperRole does not exist in AWS"]) ∧
     DriftCheck.check_cicd_role (DriftInfo.get_role_info c) =
       (false, ["CICDDeploymentRole does not exist in AWS"])).
Proof.
  assert (Hu : ∀ c : DriftInfo.user_calls,
     DriftInfo.get_user_info c = None ↔
     ∃ code, DriftInfo.list_attached_user_policies c = Aws.ClientError code ∨
             DriftInfo.list_user_policies c = Aws.ClientError code ∨
             DriftInfo.list_groups_for_user c = Aws.ClientError code).
  { intros [[a|ca] [i|ci] [g|cg]]; unfold DriftInfo.get_user_info; simpl;
      split; try discriminate; try (intros _; eexists; eauto; fail);
      try reflexivity; intros (code & [H|[H|H]]); discriminate. }
  assert (Hr : ∀ c : DriftInfo.role_calls,
     DriftInfo.get_role_info c = None ↔
     ∃ code, DriftInfo.get_role c = Aws.ClientError code ∨
             DriftInfo.list_attached_role_policies c = Aws.ClientError code ∨
             DriftInfo.list_role_policies c = Aws.ClientError code).
  { intros [[d|cd] [a|ca] [i|ci]]; unfold DriftInfo.get_role_info; simpl;
      split; try discriminate; try (intros _; eexists; eauto; fail);
      try reflexivity; intros (code & [H|[H|H]]); discriminate. }
  split; [exact Hu|]. split; [exact Hr|]. split.
  - intros c code H. assert (DriftInfo.get_user_info c = None) as ->
      by (apply Hu; exists code; exact H). split; reflexivity.
  - intros c code H. assert (DriftInfo.get_role_info c = None) as ->
      by (apply Hr; exists code; exact H). split; reflexivity.
Qed.

(** When its three reads answer, [check_developer_user] passes exactly when
    the attached policy names are, as a set, DeveloperExtendedPolicy and
    AmazonEC2ReadOnlyAccess, the inline policy names are, as a set,
    DeveloperComprehensivePolicy, and the user is in no group;
    [check_admin_user] passes exactly when the attached names are, as a set,
    PaveAdminPolicy, there is no inline policy and no group. *)
Theorem user_checks_pass_iff : ∀ attached inline groups,
  let c := {| DriftInfo.list_attached_user_policies := Aws.Ok attached;
              DriftInfo.list_user_policies := Aws.Ok inline;
              DriftInfo.list_groups_for_user := Aws.Ok groups |} in
  ((DriftCheck.check_developer_user (DriftInfo.get_user_info c)).1 = true ↔
     (list_to_set (map Drift.p_name attached) : gset string) =
       list_to_set ["DeveloperExtendedPolicy"; "AmazonEC2ReadOnlyAccess"] ∧
     (list_to_set inline : gset string) = list_to_set ["DeveloperComprehensivePolicy"] ∧
     groups = []) ∧
  ((DriftCheck.check_admin_user (DriftInfo.get_user_info c)).1 = true ↔
     (list_to_set (map Drift.p_name attached) : gset string) = list_to_set ["PaveAdminPolicy"] ∧
     inline = [] ∧ groups = []).
Proof.
  intros attached inline groups c. split.
  - apply DriftMore.check_user_some_pass.
  - etransitivity;
      [apply (DriftMore.check_user_some_pass "admin-user" ["PaveAdminPolicy"] []
                {| DriftCheck.u_attached_policies := attached;
                   DriftCheck.u_inline_policies := inline;
                   DriftCheck.u_groups := groups |})|].
    simpl. rewrite DriftMore.list_to_set_nil_iff. reflexivity.
Qed.

(* ================================================================= *)
(** * Further properties of the cleanup run *)
(* ================================================================= *)

Module CleanupMore.
Import Cleanup CleanupSpec.

Lemma lower_y (s : string) : Py.lower s = "y" ↔ s = "y" ∨ s = "Y".
Proof.
  destruct s as [|c [|c' s]].
  - simpl. split; [discriminate|]. intros [H|H]; discriminate.
  - destruct c as [[] [] [] [] [] [] [] []]; vm_compute;
      split; intros H; first [discriminate H | destruct H as [H|H]; discriminate H
                             | auto | reflexivity].
  - simpl. split; [discriminate|]. intros [H|H]; discriminate.
Qed.

Lemma proceeds_iff inv :
  proceeds inv = true ↔
  skip_confirm inv = true ∨ confirmation inv = "y" ∨ confirmation inv = "Y".
Proof.
  unfold proceeds. rewrite orb_true_iff, String.eqb_eq, lower_y. reflexivity.
Qed.

Lemma main_not_proceeds fails inv lst :
  proceeds inv = false → main fails inv lst = {| exit_code := 0; trace := [] |}.
Proof.
  unfold proceeds, main. intros H.
  destruct (skip_confirm inv), (String.eqb _ "y"); simpl in *; congruence.
Qed.



Lemma attempt_fst fails a : fst (attempt fails a) = a.
Proof. reflexivity. Qed.


Lemma full_trace_attempts fails lst a ok :
  In (a, ok) (full_trace fails lst) → ok = negb (fails a).
Proof.
  unfold full_trace, cleanup_users, cleanup_roles, cleanup_policies, cleanup_buckets.
  rewrite !in_app_iff. intros [H|[H|[H|[H|H]]]].
  - apply in_flat_map in H as (u & _ & H). simpl in H.
    destruct H as [H|[H|[H|[]]]]; injection H; intros; subst; reflexivity.
  - apply in_flat_map in H as (r & _ & H). simpl in H.
    destruct H as [H|[H|[]]]; injection H; intros; subst; reflexivity.
  - apply in_map_iff in H as (p & H & _). injection H; intros; subst; reflexivity.
  - apply in_flat_map in H as (b & _ & H). simpl in H.
    destruct H as [H|[H|[]]]; injection H; intros; subst; reflexivity.
  - destruct H as [H|[]]. injection H; intros; subst; reflexivity.
Qed.

End CleanupMore.

(** The confirmation step of the cleanup [main]: the run goes on only with
    [--skip-confirm] or when the answer, lower-cased, is "y" (so exactly
    "y" or "Y"; "yes" cancels); a cancelled run makes no AWS or file change
    and exits 0. *)
Theorem cleanup_confirmation : ∀ fails inv lst,
  (Cleanup.proceeds inv = true ↔
     Cleanup.skip_confirm inv = true ∨ Cleanup.confirmation inv = "y" ∨
     Cleanup.confirmation inv = "Y") ∧
  (Cleanup.proceeds inv = false →
     Cleanup.main fails inv lst = {| Cleanup.exit_code := 0; Cleanup.trace := [] |}).
Proof.
  intros fails inv lst. split; [apply CleanupMore.proceeds_iff|].
  apply CleanupMore.main_not_proceeds.
Qed.

(** A deletion that fails with [ClientError] never stops the cleanup:
    when no call raises anything else, the steps attempted and the exit
    status are those of a run where every call succeeds, and each step's
    reported success is whether its own calls succeeded. An exception other
    than [ClientError] in a step other than [cleanup_local_files] is not
    caught: that step is the last one attempted and the exit status is 1. *)
Theorem cleanup_failures_do_not_stop :
  (∀ ends inv lst,
     (∀ a, CleanupExcSpec.escapes ends a = false) →
     map fst (Cleanup.trace (CleanupExc.main ends inv lst)) =
       map fst (Cleanup.trace (CleanupExc.main (λ _, CleanupExc.Done) inv lst)) ∧
     Cleanup.exit_code (CleanupExc.main ends inv lst) =
       Cleanup.exit_code (CleanupExc.main (λ _, CleanupExc.Done) inv lst) ∧
     (∀ a b, In (a, b) (Cleanup.trace (CleanupExc.main ends inv lst)) →
        b = CleanupExcSpec.succeeded ends a)) ∧
  (∀ ends inv lst pre a b post,
     Cleanup.trace (CleanupExc.main ends inv lst) = (pre ++ (a, b) :: post)%list →
     CleanupExcSpec.escapes ends a = true →
     b = false ∧ post = [] ∧ Cleanup.exit_code (CleanupExc.main ends inv lst) = 1).
Proof.
  split.
  - intros ends inv lst Hn.
    destruct (CleanupExcFacts.main_stage inv lst) as [(code & Hm)|(acts & Hm)];
      rewrite !Hm; cbn [Cleanup.trace Cleanup.exit_code].
    + split; [reflexivity|]. split; [reflexivity|]. intros a b [].
    + destruct (CleanupExcFacts.run_actions_no_escape ends acts Hn) as [H1 H2].
      destruct (CleanupExcFacts.run_actions_no_escape (λ _, CleanupExc.Done) acts
                  (λ a, eq_refl)) as [H3 H4].
      rewrite H1, H2, H3, H4. split; [reflexivity|]. split; [reflexivity|].
      intros a b Hin. apply (CleanupExcFacts.run_actions_entries ends acts a b Hin).
  - intros ends inv lst pre a b post.
    destruct (CleanupExcFacts.main_stage inv lst) as [(code & Hm)|(acts & Hm)];
      rewrite !Hm; cbn [Cleanup.trace Cleanup.exit_code].
    + intros H. destruct pre; discriminate.
    + intros Ht Ha. destruct (CleanupExcFacts.run_actions_last ends acts pre a b post Ht Ha)
        as (-> & -> & Hc). rewrite Hc. auto.
Qed.



Module CleanupBucketFacts.
Import CleanupBucket ExtraSpec.

Lemma delete_batch_nonempty f o r :
  Forall (λ b : list version, b ≠ []) r.1 →
  Forall (λ b : list version, b ≠ []) (delete_batch f o r).1.
Proof.
  intros H. destruct o as [|v o]; simpl; [exact H|].
  destruct (f (v :: o)); simpl; constructor; try discriminate; auto.
Qed.

Lemma delete_batch_no_fail o r :
  delete_batch (λ _, false) o r = (match o with [] => r.1 | _ => o :: r.1 end, r.2).
Proof. destruct o; destruct r; reflexivity. Qed.


Lemma delete_batch_stops f o r :
  stops_at_failure f r → stops_at_failure f (delete_batch f o r).
Proof.
  intros H pre b post. unfold delete_batch. destruct o as [|v o]; [apply H|].
  destruct (f (v :: o)) eqn:Hf; simpl.
  - intros Heq _. destruct pre as [|x pre]; simpl in Heq.
    + injection Heq as Hb Hp. subst. split; reflexivity.
    + injection Heq as _ Heq. destruct pre; discriminate.
  - intros Heq Hb. destruct pre as [|x pre]; simpl in Heq.
    + injection Heq as Hb0 _. subst b. congruence.
    + injection Heq as _ Heq. exact (H pre b post Heq Hb).
Qed.

End CleanupBucketFacts.

(** [empty_s3_bucket] never calls [delete_objects] with an empty batch;
    when no call fails it passes every object version and delete marker of
    every page exactly once, page by page and versions before markers; a
    page that cannot be listed stops the emptying (later pages are left);
    and once a [delete_objects] call raises, no further call is made and
    the failure is reported as a warning. *)
Theorem empty_s3_bucket_batches :
  (∀ fails pages,
     Forall (λ b, b ≠ []) (CleanupBucket.empty_s3_bucket fails pages).1) ∧
  (∀ pgs : list CleanupBucket.page,
     concat (CleanupBucket.empty_s3_bucket (λ _, false) (map Some pgs)).1 =
       flat_map (λ pg, (CleanupBucket.entries (CleanupBucket.versions pg) ++
                        CleanupBucket.entries (CleanupBucket.delete_markers pg))%list) pgs ∧
     (CleanupBucket.empty_s3_bucket (λ _, false) (map Some pgs)).2 = true) ∧
  (∀ pgs rest,
     CleanupBucket.empty_s3_bucket (λ _, false) (map Some pgs ++ None :: rest)%list =
       ((CleanupBucket.empty_s3_bucket (λ _, false) (map Some pgs)).1, false)) ∧
  (∀ fails pages pre b post,
     (CleanupBucket.empty_s3_bucket fails pages).1 = (pre ++ b :: post)%list →
     fails b = true →
     post = [] ∧ (CleanupBucket.empty_s3_bucket fails pages).2 = false).
Proof.
  unfold CleanupBucket.empty_s3_bucket. split; [|split; [|split]].
  - intros fails pages. induction pages as [|[pg|] pages IH]; simpl; try constructor.
    apply CleanupBucketFacts.delete_batch_nonempty,
          CleanupBucketFacts.delete_batch_nonempty, IH.
  - induction pgs as [|pg pgs IH]; simpl; [split; reflexivity|].
    rewrite !CleanupBucketFacts.delete_batch_no_fail. destruct IH as [IH1 IH2].
    destruct (CleanupBucket.entries (CleanupBucket.versions pg)) as [|v vs],
             (CleanupBucket.entries (CleanupBucket.delete_markers pg)) as [|m ms];
      simpl; rewrite ?IH1, ?IH2; split; rewrite <- ?app_assoc; reflexivity.
  - induction pgs as [|pg pgs IH]; intros rest; simpl; [reflexivity|].
    rewrite IH, !CleanupBucketFacts.delete_batch_no_fail. reflexivity.
  - intros fails pages. induction pages as [|[pg|] pages IH]; simpl.
    + intros pre b post H. destruct pre; discriminate.
    + apply CleanupBucketFacts.delete_batch_stops,
            CleanupBucketFacts.delete_batch_stops. exact IH.
    + intros pre b post H. destruct pre; discriminate.
Qed.

Module CleanupLocalFacts.
Import CleanupLocal.

Lemma key_unique (f : fs) a x y :
  List.NoDup (map fst f) → In (a, x) f → In (a, y) f → x = y.
Proof.
  induction f as [|[b z] f IH]; simpl; [tauto|]. intros Hnd Hx Hy.
  apply List.NoDup_cons_iff in Hnd as [Hnotin Hnd].
  destruct Hx as [Hx|Hx], Hy as [Hy|Hy].
  - congruence.
  - injection Hx as -> ->. exfalso. apply Hnotin. apply in_map_iff. now exists (a, y).
  - injection Hy as -> ->. exfalso. apply Hnotin. apply in_map_iff. now exists (a, x).
  - auto.
Qed.

Lemma find_key_some (f : fs) p q k :
  find (λ e, String.eqb e.1 p) f = Some (q, k) → q = p ∧ In (p, k) f.
Proof.
  intros H. pose proof (find_some _ _ H) as [Hin Heq]. simpl in Heq.
  apply String.eqb_eq in Heq. subst. auto.
Qed.

Lemma find_key_none (f : fs) p k :
  find (λ e, String.eqb e.1 p) f = None → ¬ In (p, k) f.
Proof.
  intros H Hin. pose proof (find_none _ _ H _ Hin) as Hb. simpl in Hb.
  rewrite String.eqb_refl in Hb. discriminate.
Qed.

Lemma nodup_filter (f : fs) g :
  List.NoDup (map fst f) → List.NoDup (map fst (List.filter g f)).
Proof.
  induction f as [|e f IH]; simpl; [auto|]. intros Hnd.
  apply List.NoDup_cons_iff in Hnd as [Hnotin Hnd].
  destruct (g e); simpl; [|auto]. constructor; [|auto].
  intros Hin. apply Hnotin. apply in_map_iff in Hin as (e' & He' & Hin).
  apply List.filter_In in Hin as [Hin _]. apply in_map_iff. eauto.
Qed.

Lemma unlink_nodup f p : List.NoDup (map fst f) → List.NoDup (map fst (unlink f p)).
Proof.
  intros H. unfold unlink. destruct (find _ f) as [[q [|]]|]; auto using nodup_filter.
Qed.

Lemma rmtree_nodup f d : List.NoDup (map fst f) → List.NoDup (map fst (rmtree f d)).
Proof.
  intros H. unfold rmtree. destruct (find _ f) as [[q [|]]|]; auto using nodup_filter.
Qed.

Lemma unlink_spec f p e :
  List.NoDup (map fst f) →
  In e (unlink f p) ↔ In e f ∧ ¬ (e.1 = p ∧ e.2 = File).
Proof.
  intros Hnd. destruct e as [a k]. simpl. unfold unlink.
  destruct (find _ f) as [[q [|]]|] eqn:Hfind.
  - apply find_key_some in Hfind as [-> Hin].
    rewrite List.filter_In. simpl. rewrite negb_true_iff, String.eqb_neq.
    split; intros [Ha Hb]; split; auto.
    + intros [-> ->]. auto.
    + intros ->. apply Hb. split; [reflexivity|]. exact (key_unique f p k File Hnd Ha Hin).
  - apply find_key_some in Hfind as [-> Hin].
    split; [|tauto]. intros Ha. split; [exact Ha|]. intros [-> ->].
    pose proof (key_unique f p File Dir Hnd Ha Hin). discriminate.
  - split; [|tauto]. intros Ha. split; [exact Ha|]. intros [-> ->].
    exact (find_key_none f p File Hfind Ha).
Qed.

Lemma rmtree_spec f d e :
  List.NoDup (map fst f) →
  In e (rmtree f d) ↔ In e f ∧ ¬ (In (d, Dir) f ∧ under d e.1 = true).
Proof.
  intros Hnd. unfold rmtree.
  destruct (find _ f) as [[q [|]]|] eqn:Hfind.
  - apply find_key_some in Hfind as [-> Hin].
    split; [|tauto]. intros Ha. split; [exact Ha|]. intros [HD _].
    pose proof (key_unique f d File Dir Hnd Hin HD). discriminate.
  - apply find_key_some in Hfind as [-> Hin].
    rewrite List.filter_In, negb_true_iff.
    split; intros [Ha Hb]; split; auto.
    + intros [_ Hu]. congruence.
    + destruct (under d e.1); [|reflexivity]. exfalso. auto.
  - split; [|tauto]. intros Ha. split; [exact Ha|]. intros [HD _].
    exact (find_key_none f d Dir Hfind HD).
Qed.

Lemma unlink_all_spec ps f e :
  List.NoDup (map fst f) →
  List.NoDup (map fst (fold_left unlink ps f)) ∧
  (In e (fold_left unlink ps f) ↔ In e f ∧ ¬ (e.2 = File ∧ In e.1 ps)).
Proof.
  revert f. induction ps as [|p ps IH]; intros f Hnd; simpl.
  - split; [exact Hnd|tauto].
  - destruct (IH (unlink f p) (unlink_nodup f p Hnd)) as [H1 H2].
    split; [exact H1|]. rewrite H2, (unlink_spec f p e Hnd). intuition.
Qed.

End CleanupLocalFacts.

(** [cleanup_local_files] removes exactly the three state files when they
    are regular files, and every entry at or below [.terraform] or
    [credentials] when that path is a directory; every other entry of the
    working directory is kept, in particular anything named [.secrets]. A
    state-file name held by a directory, or a directory name held by a
    file, is left alone (the error is caught and printed). *)
Theorem cleanup_local_files_effect (f : CleanupLocal.fs)
    (Hf : List.NoDup (map fst f)) :
  (∀ e, In e (CleanupLocal.cleanup_local_files f) ↔
        In e f ∧
        ¬ (e.2 = CleanupLocal.File ∧ In e.1 CleanupLocal.files_to_clean) ∧
        ¬ (∃ d, In d CleanupLocal.dirs_to_clean ∧ In (d, CleanupLocal.Dir) f ∧
                CleanupLocal.under d e.1 = true)) ∧
  (∀ k, In (".secrets", k) f → In (".secrets", k) (CleanupLocal.cleanup_local_files f)).
Proof.
  assert (Hmain : ∀ e, In e (CleanupLocal.cleanup_local_files f) ↔
        In e f ∧
        ¬ (e.2 = CleanupLocal.File ∧ In e.1 CleanupLocal.files_to_clean) ∧
        ¬ (∃ d, In d CleanupLocal.dirs_to_clean ∧ In (d, CleanupLocal.Dir) f ∧
                CleanupLocal.under d e.1 = true)).
  { intros e. unfold CleanupLocal.cleanup_local_files.
    set (f1 := fold_left CleanupLocal.unlink CleanupLocal.files_to_clean f).
    assert (Hnd1 : List.NoDup (map fst f1))
      by exact (proj1 (CleanupLocalFacts.unlink_all_spec _ f e Hf)).
    assert (Hin1 : ∀ x, In x f1 ↔ In x f ∧
                   ¬ (x.2 = CleanupLocal.File ∧ In x.1 CleanupLocal.files_to_clean))
      by (intros x; exact (proj2 (CleanupLocalFacts.unlink_all_spec _ f x Hf))).
    simpl. set (f2 := CleanupLocal.rmtree f1 ".terraform").
    assert (Hnd2 : List.NoDup (map fst f2)) by exact (CleanupLocalFacts.rmtree_nodup _ _ Hnd1).
    rewrite (CleanupLocalFacts.rmtree_spec f2 _ e Hnd2).
    unfold f2. rewrite !(CleanupLocalFacts.rmtree_spec f1 _ _ Hnd1), !Hin1. simpl.
    assert (Hcred : CleanupLocal.under ".terraform" "credentials" = false) by reflexivity.
    rewrite Hcred.
    split.
    - intros [[[Hin Hnf] Hnt] Hnc]. split; [exact Hin|]. split; [exact Hnf|].
      intros (d & [<-|[<-|[]]] & Hd & Hu).
      + apply Hnt. split; [|exact Hu]. split; [exact Hd|]. intros [Hc _]. discriminate.
      + apply Hnc. split; [|exact Hu]. split; [split; [exact Hd|intros [Hc _]; discriminate]|].
        intros [_ Hc]; discriminate.
    - intros (Hin & Hnf & Hnd). split; [split; [split; [exact Hin|exact Hnf]|]|].
      + intros [[Hd _] Hu]. apply Hnd. exists ".terraform". simpl. auto.
      + intros [[[Hd _] _] Hu]. apply Hnd. exists "credentials". simpl. auto. }
  split; [exact Hmain|]. intros k Hk. apply Hmain. simpl. split; [exact Hk|]. split.
  - intros [_ [H|[H|[H|[]]]]]; discriminate.
  - intros (d & [<-|[<-|[]]] & _ & Hu); discriminate.
Qed.

Lemma cleanup_local_files_effect_witness :
  List.NoDup (map fst [("terraform.tfstate", CleanupLocal.File); (".terraform", CleanupLocal.Dir);
                  (".terraform/providers", CleanupLocal.Dir); ("main.tf", CleanupLocal.File)]) ∧
  In ("main.tf", CleanupLocal.File)
     (CleanupLocal.cleanup_local_files
        [("terraform.tfstate", CleanupLocal.File); (".terraform", CleanupLocal.Dir);
         (".terraform/providers", CleanupLocal.Dir); ("main.tf", CleanupLocal.File)]).
Proof.
  assert (Hnd : List.NoDup (map fst [("terraform.tfstate", CleanupLocal.File); (".terraform", CleanupLocal.Dir);
                  (".terraform/providers", CleanupLocal.Dir); ("main.tf", CleanupLocal.File)]))
    by (simpl; repeat constructor; simpl; intuition discriminate).
  split; [exact Hnd|].
  apply (proj1 (cleanup_local_files_effect _ Hnd) ("main.tf", CleanupLocal.File)).
  simpl. split; [tauto|]. split.
  - intros [_ [H|[H|[H|[]]]]]; discriminate.
  - intros (d & [<-|[<-|[]]] & _ & Hu); discriminate.
Defined.

Module RetryMore.
Import Retry.

Lemma loop_returned {A} (func : nat -> call_result A) max init : ∀ fuel a v,
  (retry_loop func max init a fuel).2 = Returned v →
  ∃ k, a ≤ k < a + fuel ∧
       (∀ i, a ≤ i < k → ∃ e, func i = Exc e ∧ is_retryable e = true) ∧
       func k = Ret v.
Proof.
  induction fuel as [|fuel IH]; intros a v H; simpl in H; [discriminate|].
  destruct (func a) as [w|e] eqn:Hf.
  - injection H as <-. exists a. split; [lia|]. split; [intros; lia|exact Hf].
  - destruct (Nat.eqb a (max - 1)); [discriminate|].
    destruct (is_retryable e) eqn:Hr; [|discriminate].
    destruct (retry_loop func max init (S a) fuel) as [ds r] eqn:El. simpl in H.
    destruct (IH (S a) v) as (k & Hk & Hpre & Hv); [rewrite El; exact H|].
    exists k. split; [lia|]. split; [|exact Hv].
    intros i Hi. destruct (Nat.eq_dec i a) as [->|Hne]; [eauto|]. apply Hpre. lia.
Qed.

Lemma retry_returned_iff {A} (func : nat -> call_result A) max init v :
  (retry_with_backoff func max init).2 = Returned v ↔
  ∃ k, k < max ∧ (∀ i, i < k → ∃ e, func i = Exc e ∧ is_retryable e = true) ∧
       func k = Ret v.
Proof.
  split.
  - intros H. destruct (loop_returned func max init max 0 v H) as (k & Hk & Hpre & Hv).
    exists k. split; [lia|]. split; [intros i Hi; apply Hpre; lia|exact Hv].
  - intros (k & Hk & Hpre & Hv).
    rewrite (RetryProofs.retry_prefix func max init k Hk Hpre). simpl.
    rewrite Hv. reflexivity.
Qed.

Lemma loop_sleeps {A} (func : nat -> call_result A) max init : ∀ fuel a,
  ∃ n, (retry_loop func max init a fuel).1 = map (delay init) (seq a n).
Proof.
  induction fuel as [|fuel IH]; intros a; simpl; [exists 0; reflexivity|].
  destruct (func a); [exists 0; reflexivity|].
  destruct (Nat.eqb a (max - 1)); [exists 0; reflexivity|].
  destruct (is_retryable msg); [|exists 0; reflexivity].
  destruct (IH (S a)) as [n Hn].
  destruct (retry_loop func max init (S a) fuel) as [ds r]. simpl in *.
  exists (S n). simpl. rewrite Hn. reflexivity.
Qed.


Lemma final_true (r : final bool) :
  match r with Returned b => b | Raised _ => false end = true ↔ r = Returned true.
Proof. destruct r as [[]|]; split; congruence. Qed.

End RetryMore.

Module ValidateMore.
Import Retry ValidateFlow.

Lemma check_user_exc o e :
  check_user o = Exc e ↔ o = GetUserError e ∧ self_permission_denied e = false.
Proof.
  destruct o as [arn| |msg]; simpl; try (split; [discriminate|intros [H _]; discriminate]).
  destruct (self_permission_denied msg) eqn:Hs; split.
  - discriminate.
  - intros [H1 H2]. injection H1 as ->. congruence.
  - intros H. injection H as ->. auto.
  - intros [H1 _]. injection H1 as ->. reflexivity.
Qed.

Lemma check_user_true o :
  check_user o = Ret true ↔
  (∃ arn, o = UserFound arn) ∨ (∃ e, o = GetUserError e ∧ self_permission_denied e = true).
Proof.
  destruct o as [arn| |msg]; simpl.
  - split; [eauto|reflexivity].
  - split; [discriminate|]. intros [[? H]|[? [H _]]]; discriminate.
  - destruct (self_permission_denied msg) eqn:Hs; split.
    + intros _. right. eauto.
    + reflexivity.
    + discriminate.
    + intros [[? H]|[e [H1 H2]]]; [discriminate|]. injection H1 as <-. congruence.
Qed.

Lemma check_identity_exc o e : check_identity o = Exc e ↔ o = IdentityError e.
Proof. destruct o; simpl; split; congruence. Qed.

Lemma check_identity_true o :
  check_identity o = Ret true ↔
  ∃ arn, o = Identity (Some arn) ∧ Py.str_in "bootstrap-user" arn = true.
Proof.
  destruct o as [[arn|]|msg]; simpl.
  - split; [intros H; injection H as H; eauto|].
    intros (a & Ha & Hs). injection Ha as <-. rewrite Hs. reflexivity.
  - split; [discriminate|]. intros (a & Ha & _). discriminate.
  - split; [discriminate|]. intros (a & Ha & _). discriminate.
Qed.

Lemma test_permission_exc op a e : test_permission op a = Exc e ↔ op a = Exc e.
Proof. unfold test_permission. destruct (op a); split; congruence. Qed.

Lemma test_permission_ret op a : test_permission op a = Ret true ↔ ∃ u, op a = Ret u.
Proof.
  unfold test_permission. destruct (op a) as [[]|e]; split; eauto.
  - discriminate.
  - intros [? H]; discriminate.
Qed.

Lemma op_passes_iff op :
  op_passes op = true ↔
  ∃ k, k < 6 ∧ (∀ i, i < k → ∃ e, op i = Exc e ∧ is_retryable e = true) ∧
       ∃ u, op k = Ret u.
Proof.
  unfold op_passes. split.
  - destruct (retry_with_backoff_default (test_permission op)).2 as [b|e] eqn:E;
      [intros _|discriminate].
    unfold retry_with_backoff_default in E.
    apply RetryMore.retry_returned_iff in E as (k & Hk & Hpre & Hv).
    exists k. split; [exact Hk|]. split.
    + intros i Hi. destruct (Hpre i Hi) as (e & He & Hr).
      exists e. rewrite <- test_permission_exc. auto.
    + unfold test_permission in Hv. destruct (op k) as [u|]; [eauto|discriminate].
  - intros (k & Hk & Hpre & Hv).
    assert (E : (retry_with_backoff_default (test_permission op)).2 = Returned true).
    { apply RetryMore.retry_returned_iff. exists k. split; [exact Hk|]. split.
      - intros i Hi. destruct (Hpre i Hi) as (e & He & Hr).
        exists e. rewrite test_permission_exc. auto.
      - apply test_permission_ret. exact Hv. }
    rewrite E. reflexivity.
Qed.

Lemma permissions_loop_cons op rest :
  permissions_loop (op :: rest) =
    if op_passes op then ((S (permissions_loop rest).1), (permissions_loop rest).2)
    else (1, false).
Proof.
  unfold op_passes. simpl.
  destruct (retry_with_backoff_default (test_permission op)).2; [|reflexivity].
  destruct (permissions_loop rest); reflexivity.
Qed.

End ValidateMore.

(** Whatever the wrapped operation does, [retry_with_backoff] sleeps
    along the doubling schedule [initial_delay * 2^0, initial_delay * 2^1,
    ...], cut after at most [max_attempts - 1] sleeps; with the defaults
    the sleeps add up to at most 31 seconds. *)
Theorem retry_sleep_schedule :
  (∀ (A : Type) (func : nat -> Retry.call_result A) max_attempts initial_delay,
     ∃ n, (n ≤ max_attempts - 1)%nat ∧
          (Retry.retry_with_backoff func max_attempts initial_delay).1 =
            map (Retry.delay initial_delay) (seq 0 n)) ∧
  (∀ (A : Type) (func : nat -> Retry.call_result A),
     (ExtraSpec.total (Retry.retry_with_backoff_default func).1 <= 31)%Q).
Proof.
  assert (Hsched : ∀ (A : Type) (func : nat -> Retry.call_result A) max init,
     ∃ n, (n ≤ max - 1)%nat ∧
          (Retry.retry_with_backoff func max init).1 = map (Retry.delay init) (seq 0 n)).
  { intros A func max init.
    destruct (RetryMore.loop_sleeps func max init max 0) as [n Hn].
    exists n. split; [|exact Hn].
    pose proof (RetryFacts.retry_loop_sleeps_bound func max init max 0 ltac:(lia)) as Hb.
    rewrite Hn, length_map, length_seq in Hb. exact Hb. }
  split; [exact Hsched|].
  intros A func. destruct (Hsched A func 6 1%Q) as (n & Hn & Heq).
  unfold Retry.retry_with_backoff_default. rewrite Heq.
  do 6 (destruct n as [|n]; [apply Qle_bool_imp_le; vm_compute; reflexivity|]). lia.
Qed.

(** [retry_with_backoff] returns a value [v] exactly when some call
    [k < max_attempts] returned [v] and every earlier call raised a
    retryable error; in every other case it raises. *)
Theorem retry_returns_iff :
  ∀ (A : Type) (func : nat -> Retry.call_result A) max_attempts initial_delay v,
  ((Retry.retry_with_backoff func max_attempts initial_delay).2 = Retry.Returned v ↔
   ∃ k, k < max_attempts ∧
        (∀ i, i < k → ∃ e, func i = Retry.Exc e ∧ Retry.is_retryable e = true) ∧
        func k = Retry.Ret v) ∧
  ((∀ w, (Retry.retry_with_backoff func max_attempts initial_delay).2 ≠ Retry.Returned w) →
   ∃ e, (Retry.retry_with_backoff func max_attempts initial_delay).2 = Retry.Raised e).
Proof.
  intros A func max init v. split; [apply RetryMore.retry_returned_iff|].
  intros H. destruct (Retry.retry_with_backoff func max init).2 as [w|e].
  - exfalso. exact (H w eq_refl).
  - eauto.
Qed.

(** [validate_bootstrap_user] answers [True] exactly when, within the six
    attempts, after retryable errors only, [get_user] returns the user or
    raises an error naming both [AccessDenied] and [iam:GetUser]; a
    [NoSuchEntityException] at the first call gives [False] at once,
    without a retry or a sleep. *)
Theorem validate_bootstrap_user_iff :
  (∀ get_user : nat -> ValidateFlow.get_user_outcome,
     ValidateFlow.validate_bootstrap_user get_user = true ↔
     ∃ k, k < 6 ∧
          (∀ i, i < k → ∃ e, get_user i = ValidateFlow.GetUserError e ∧
                             ValidateFlow.self_permission_denied e = false ∧
                             Retry.is_retryable e = true) ∧
          ((∃ arn, get_user k = ValidateFlow.UserFound arn) ∨
           (∃ e, get_user k = ValidateFlow.GetUserError e ∧
                 ValidateFlow.self_permission_denied e = true))) ∧
  (∀ get_user : nat -> ValidateFlow.get_user_outcome,
     get_user 0 = ValidateFlow.NoSuchEntityException →
     Retry.retry_with_backoff_default (λ a, ValidateFlow.check_user (get_user a)) =
       ([], Retry.Returned false) ∧
     ValidateFlow.validate_bootstrap_user get_user = false).
Proof.
  split.
  - intros g. unfold ValidateFlow.validate_bootstrap_user.
    rewrite RetryMore.final_true. unfold Retry.retry_with_backoff_default.
    rewrite RetryMore.retry_returned_iff. split.
    + intros (k & Hk & Hpre & Hv). exists k. split; [exact Hk|]. split.
      * intros i Hi. destruct (Hpre i Hi) as (e & He & Hr).
        apply ValidateMore.check_user_exc in He as [He Hs]. eauto.
      * apply ValidateMore.check_user_true. exact Hv.
    + intros (k & Hk & Hpre & Hv). exists k. split; [exact Hk|]. split.
      * intros i Hi. destruct (Hpre i Hi) as (e & He & Hs & Hr).
        exists e. rewrite ValidateMore.check_user_exc. auto.
      * apply ValidateMore.check_user_true. exact Hv.
  - intros g H0. unfold ValidateFlow.validate_bootstrap_user,
      Retry.retry_with_backoff_default, Retry.retry_with_backoff.
    rewrite RetryFacts.retry_loop_step. simpl. rewrite H0. split; reflexivity.
Qed.

(** [validate_current_user_is_bootstrap] answers [True] exactly when,
    within the six attempts, after retryable errors only,
    [get_caller_identity] answers with an [Arn] that contains
    [bootstrap-user]; a response without [Arn] counts as the empty ARN and
    gives [False] with no retry. *)
Theorem validate_current_user_iff :
  (∀ ident : nat -> ValidateFlow.identity_outcome,
     ValidateFlow.validate_current_user_is_bootstrap ident = true ↔
     ∃ k, k < 6 ∧
          (∀ i, i < k → ∃ e, ident i = ValidateFlow.IdentityError e ∧
                             Retry.is_retryable e = true) ∧
          ∃ arn, ident k = ValidateFlow.Identity (Some arn) ∧
                 Py.str_in "bootstrap-user" arn = true) ∧
  (∀ ident : nat -> ValidateFlow.identity_outcome,
     ident 0 = ValidateFlow.Identity None →
     Retry.retry_with_backoff_default (λ a, ValidateFlow.check_identity (ident a)) =
       ([], Retry.Returned false)).
Proof.
  split.
  - intros g. unfold ValidateFlow.validate_current_user_is_bootstrap.
    rewrite RetryMore.final_true. unfold Retry.retry_with_backoff_default.
    rewrite RetryMore.retry_returned_iff. split.
    + intros (k & Hk & Hpre & Hv). exists k. split; [exact Hk|]. split.
      * intros i Hi. destruct (Hpre i Hi) as (e & He & Hr).
        apply ValidateMore.check_identity_exc in He. eauto.
      * apply ValidateMore.check_identity_true. exact Hv.
    + intros (k & Hk & Hpre & Hv). exists k. split; [exact Hk|]. split.
      * intros i Hi. destruct (Hpre i Hi) as (e & He & Hr).
        exists e. rewrite ValidateMore.check_identity_exc. auto.
      * apply ValidateMore.check_identity_true. exact Hv.
  - intros g H0. unfold Retry.retry_with_backoff_default, Retry.retry_with_backoff.
    rewrite RetryFacts.retry_loop_step. simpl. rewrite H0. reflexivity.
Qed.

(** [validate_bootstrap_permissions] tries [list_users], [list_roles] and
    [list_buckets] in that order, each under the retry helper, and stops at
    the first one whose retries are exhausted or meet a non-retryable
    error: it answers [True] exactly when each operation succeeds within
    six attempts after retryable errors only. *)
Theorem validate_bootstrap_permissions_result :
  ∀ list_users list_roles list_buckets : nat -> Retry.call_result unit,
  ValidateFlow.validate_bootstrap_permissions list_users list_roles list_buckets =
    (if ValidateFlow.op_passes list_users then
       if ValidateFlow.op_passes list_roles then
         (3, ValidateFlow.op_passes list_buckets)
       else (2, false)
     else (1, false)) ∧
  ((ValidateFlow.validate_bootstrap_permissions list_users list_roles list_buckets).2 = true ↔
   ∀ op, In op [list_users; list_roles; list_buckets] →
     ∃ k, k < 6 ∧ (∀ i, i < k → ∃ e, op i = Retry.Exc e ∧ Retry.is_retryable e = true) ∧
          ∃ u, op k = Retry.Ret u).
Proof.
  intros lu lr lb.
  assert (Heq : ValidateFlow.validate_bootstrap_permissions lu lr lb =
    (if ValidateFlow.op_passes lu then
       if ValidateFlow.op_passes lr then (3, ValidateFlow.op_passes lb)
       else (2, false)
     else (1, false))).
  { unfold ValidateFlow.validate_bootstrap_permissions.
    rewrite !ValidateMore.permissions_loop_cons.
    destruct (ValidateFlow.op_passes lu), (ValidateFlow.op_passes lr),
             (ValidateFlow.op_passes lb); reflexivity. }
  split; [exact Heq|]. rewrite Heq. split.
  - intros H op Hop. apply ValidateMore.op_passes_iff.
    destruct (ValidateFlow.op_passes lu) eqn:Hu; [|discriminate].
    destruct (ValidateFlow.op_passes lr) eqn:Hr; [|discriminate].
    simpl in H. destruct Hop as [<-|[<-|[<-|[]]]]; assumption.
  - intros H.
    rewrite !(proj2 (ValidateMore.op_passes_iff _)) by (apply H; simpl; tauto).
    reflexivity.
Qed.

Module BootstrapMore.
Import Bootstrap ExtraSpec.

#[local] Arguments String.eqb : simpl never.












End BootstrapMore.



Module BootstrapRoleFacts.
Import Aws BootstrapRole.

Lemma find_role_app (roles : list (string * role)) x :
  find_role roles = None → find_role (roles ++ [(role_name, x)])%list = Some x.
Proof.
  unfold find_role. induction roles as [|r rs IH]; simpl; intros H.
  - reflexivity.
  - destruct (String.eqb r.1 role_name); [discriminate|]. exact (IH H).
Qed.

End BootstrapRoleFacts.

(** [create_bootstrap_role] creates [PaveBootstrapRole] only when IAM
    allows [create_role] and no role of that name exists; the new role's
    trust policy lets exactly the given user ARN assume it, by the test of
    the drift detector, and no federated principal. On an existing role,
    [get_role] gives the existing ARN, nothing changes, and a refused
    [get_role] raises its [ClientError] out of the function. Any other
    [create_role] error returns [None]. Calling it again on the roles the
    first call left returns the same. *)
Theorem create_bootstrap_role_effect :
  ∀ (account_id : string) (create_role_auth get_role_auth : Aws.api unit)
    (roles : list (string * BootstrapRole.role)) (user_arn : string),
  let res := BootstrapRole.create_bootstrap_role account_id create_role_auth get_role_auth
               roles user_arn in
  (create_role_auth = Aws.Ok tt → BootstrapRole.find_role roles = None →
   ∃ r, res = (Aws.Ok (Some (BootstrapRole.role_arn r)),
               app roles [(BootstrapRole.role_name, r)]) ∧
        BootstrapRole.role_arn r =
          "arn:aws:iam::" ++ account_id ++ ":role/" ++ BootstrapRole.role_name ∧
        (∀ a, Json.bind (DriftDetector.statements_of (BootstrapRole.assume_role_policy r))
                (DriftDetector.can_assume_aws a) = Json.Returns (String.eqb a user_arn)) ∧
        (∀ fed, Json.bind (DriftDetector.statements_of (BootstrapRole.assume_role_policy r))
                  (DriftDetector.can_assume_federated fed) = Json.Returns false)) ∧
  (create_role_auth = Aws.Ok tt → ∀ r, BootstrapRole.find_role roles = Some r →
   (get_role_auth = Aws.Ok tt → res = (Aws.Ok (Some (BootstrapRole.role_arn r)), roles)) ∧
   (∀ code, get_role_auth = Aws.ClientError code → res = (Aws.ClientError code, roles))) ∧
  (∀ code, create_role_auth = Aws.ClientError code → code ≠ "EntityAlreadyExists" →
   res = (Aws.Ok None, roles)) ∧
  (create_role_auth = Aws.Ok tt → get_role_auth = Aws.Ok tt →
   ∀ user_arn', BootstrapRole.create_bootstrap_role account_id create_role_auth get_role_auth
                  res.2 user_arn' = (res.1, res.2)).
Proof.
  intros acct cra gra roles uarn res. subst res.
  unfold BootstrapRole.create_bootstrap_role, BootstrapRole.create_role,
    BootstrapRole.get_role.
  split; [|split; [|split]].
  - intros -> Hn. rewrite Hn.
    exists {| BootstrapRole.role_arn :=
                "arn:aws:iam::" ++ acct ++ ":role/" ++ BootstrapRole.role_name;
              BootstrapRole.assume_role_policy := BootstrapRole.trust_policy_for uarn |}.
    split; [reflexivity|]. split; [reflexivity|]. split.
    + intros a. cbn. destruct (String.eqb a uarn); reflexivity.
    + intros fed. reflexivity.
  - intros -> r Hr. rewrite Hr. split.
    + intros ->. reflexivity.
    + intros code ->. reflexivity.
  - intros code -> Hc. apply String.eqb_neq in Hc. rewrite Hc. reflexivity.
  - intros -> -> uarn'.
    destruct (BootstrapRole.find_role roles) as [r|] eqn:H.
    + simpl. rewrite H. reflexivity.
    + simpl. rewrite BootstrapRoleFacts.find_role_app by exact H. reflexivity.
Qed.


(** [create_s3_backend_bucket] answers [True] exactly when [head_bucket]
    finds the bucket, or answers 404 and the creation and the three
    configuration calls all succeed; any other [head_bucket] error gives
    [False] with nothing done. The configuration is applied in order and
    stops at the first failing call, so a failure after the creation leaves
    a bucket without the public access block, and a later run, whose
    [head_bucket] then finds the bucket, answers [True] without
    configuring anything. *)
Theorem create_s3_backend_bucket_steps :
  let all := [BootstrapBucket.Created; BootstrapBucket.VersioningEnabled;
              BootstrapBucket.EncryptionAES256; BootstrapBucket.PublicAccessBlocked] in
  (∀ c, ∃ n, (BootstrapBucket.create_s3_backend_bucket c).2 = firstn n all) ∧
  (∀ c, (BootstrapBucket.create_s3_backend_bucket c).1 = true ↔
        (∃ u, BootstrapBucket.head_bucket c = Aws.Ok u) ∨
        (BootstrapBucket.head_bucket c = Aws.ClientError "404" ∧
         (BootstrapBucket.create_s3_backend_bucket c).2 = all)) ∧
  (∀ c code, BootstrapBucket.head_bucket c = Aws.ClientError code → code ≠ "404" →
     BootstrapBucket.create_s3_backend_bucket c = (false, [])) ∧
  (∀ c, BootstrapBucket.head_bucket c = Aws.ClientError "404" →
     (∃ u, BootstrapBucket.create_bucket c = Aws.Ok u) →
     (BootstrapBucket.create_s3_backend_bucket c).1 = false →
     In BootstrapBucket.Created (BootstrapBucket.create_s3_backend_bucket c).2 ∧
     ¬ In BootstrapBucket.PublicAccessBlocked (BootstrapBucket.create_s3_backend_bucket c).2) ∧
  (∀ c u, BootstrapBucket.head_bucket c = Aws.Ok u →
     BootstrapBucket.create_s3_backend_bucket c = (true, [])).
Proof.
  intros all. subst all. split; [|split; [|split; [|split]]].
  - intros [h cr v e p]. unfold BootstrapBucket.create_s3_backend_bucket. simpl.
    destruct h as [u|code]; [exists 0; reflexivity|].
    destruct (negb (String.eqb code "404")); [exists 0; reflexivity|].
    destruct cr; [|exists 0; reflexivity].
    destruct v; [|exists 1; reflexivity].
    destruct e; [|exists 2; reflexivity].
    destruct p; [exists 4; reflexivity|exists 3; reflexivity].
  - intros [h cr v e p]. unfold BootstrapBucket.create_s3_backend_bucket. simpl.
    destruct h as [u|code]; [split; [eauto|reflexivity]|].
    destruct (String.eqb code "404") eqn:E; simpl.
    + apply String.eqb_eq in E. subst code.
      destruct cr, v, e, p; simpl; split; try reflexivity;
        try (intros H; discriminate H); try (intros [[u H]|[_ H]]; discriminate H); eauto.
    + split; [discriminate|]. intros [[u H]|[H _]]; [discriminate|].
      injection H as ->. discriminate.
  - intros [h cr v e p] code Hh Hc. unfold BootstrapBucket.create_s3_backend_bucket.
    simpl in *. subst h. apply String.eqb_neq in Hc. rewrite Hc. reflexivity.
  - intros [h cr v e p] Hh [u Hcr]. unfold BootstrapBucket.create_s3_backend_bucket.
    simpl in *. subst h cr. simpl.
    destruct v, e, p; simpl; intros Hf; try discriminate Hf; (split; [tauto|]);
      intros Hin; simpl in Hin; intuition discriminate.
  - intros [h cr v e p] u Hh. simpl in Hh. subst h. reflexivity.
Qed.
